(** * The Vulkan swapchain of the Flutter engine (RS_ENABLE_VK build)

    A shallow embedding of [engine/flutter/vulkan/vulkan_swapchain.cc]:
    format negotiation and chain construction, the acquire / submit / flush
    protocol on one chain, and the process-wide registry behind
    [AddToPresent] / [PresentAll].

    Conventions.
    - Vulkan handles, enums and flag bits are integers ([Z]) with the values of
      [vulkan_core.h]; [uint32_t] and [size_t] arithmetic has its wrap-around
      written out.
    - A [std::vector] is a list; [v[i]] is stdpp's lookup, and an index past
      the end is undefined behaviour ([Undef]).
    - A call into the device, the platform or Skia takes its answer from an
      environment record; the calls of the acquire / submit / present paths,
      the calls on a backbuffer among them, are written to a log of events,
      in program order.  The log is what
      statements about "which calls were made, with which arguments, in
      which order" are about.
    - The file models the branch compiled when [RS_ENABLE_VK] is defined. *)

From stdpp Require Import gmap list.

Local Open Scope Z_scope.

(** ** Vulkan and Skia vocabulary *)

Definition handle := Z.
Definition VkResult := Z.
Definition VkFormat := Z.

Definition VK_NULL_HANDLE : handle := 0.
Definition VK_TRUE : Z := 1.
Definition VK_FALSE : Z := 0.

Definition VK_SUCCESS : VkResult := 0.
Definition VK_ERROR_SURFACE_LOST_KHR : VkResult := -1000000000.
Definition VK_ERROR_OUT_OF_DATE_KHR : VkResult := -1000001004.

Definition VK_FORMAT_UNDEFINED : VkFormat := 0.
Definition VK_FORMAT_R8G8B8A8_UNORM : VkFormat := 37.
Definition VK_FORMAT_R8G8B8A8_SRGB : VkFormat := 43.
Definition VK_FORMAT_B8G8R8A8_UNORM : VkFormat := 44.
Definition VK_FORMAT_B8G8R8A8_SRGB : VkFormat := 50.
Definition VK_FORMAT_R16G16B16A16_SFLOAT : VkFormat := 97.

Definition VK_PIPELINE_STAGE_TOP_OF_PIPE_BIT : Z := 0x1.
Definition VK_PIPELINE_STAGE_COLOR_ATTACHMENT_OUTPUT_BIT : Z := 0x400.
Definition VK_PIPELINE_STAGE_BOTTOM_OF_PIPE_BIT : Z := 0x2000.

Definition VK_ACCESS_COLOR_ATTACHMENT_WRITE_BIT : Z := 0x100.
Definition VK_ACCESS_MEMORY_READ_BIT : Z := 0x8000.

Definition VK_IMAGE_LAYOUT_UNDEFINED : Z := 0.
Definition VK_IMAGE_LAYOUT_COLOR_ATTACHMENT_OPTIMAL : Z := 2.
Definition VK_IMAGE_LAYOUT_PRESENT_SRC_KHR : Z := 1000001002.

Definition VK_PRESENT_MODE_FIFO_KHR : Z := 2.

Definition UINT32_MODULUS : Z := 2 ^ 32.
Definition SIZE_MODULUS : Z := 2 ^ 64.
Definition UINT64_MAX : Z := 2 ^ 64 - 1.

(** Conversion to [uint32_t] and to [int32_t]. *)
Definition to_uint32 (z : Z) : Z := z mod UINT32_MODULUS.
Definition to_int32 (z : Z) : Z := (z + 2 ^ 31) mod UINT32_MODULUS - 2 ^ 31.

Inductive SkColorType :=
| kUnknown_SkColorType
| kRGBA_8888_SkColorType
| kBGRA_8888_SkColorType
| kRGBA_F16_SkColorType.

Inductive SkColorSpace := SRGB | SRGBLinear.

Record VkExtent2D := { width : Z; height : Z }.

Record VkSurfaceCapabilitiesKHR := {
  minImageCount : Z;
  currentExtent : VkExtent2D;
  minImageExtent : VkExtent2D;
  maxImageExtent : VkExtent2D
}.

Record VkSurfaceFormatKHR := { format : VkFormat; colorSpace : Z }.

(** [SkISize] holds two [int32_t]; [SkISize::Make] receives the [uint32_t]
    extents through the implicit conversion. *)
Record SkISize := { fWidth : Z; fHeight : Z }.

Definition SkISize_Make (w h : Z) : SkISize :=
  {| fWidth := to_int32 w; fHeight := to_int32 h |}.

(** A drawable surface ([sk_sp<SkSurface>]); a null pointer is [None]. *)
Definition SkSurface := handle.

(** Modelled from the spec: [vulkan_backbuffer.h] is not among the sources.
    A backbuffer is one rotation slot: a usage and a render semaphore, a usage
    and a render fence, a usage and a render command buffer, its validity, and
    the flag that marks it as part of a batched, cross-thread present
    ([IsMultiThreading] / [SetMultiThreading] / [UnsetMultiThreading]). *)
Record VulkanBackbuffer := {
  bb_valid : bool;
  multi_threading : bool;
  usage_semaphore : handle;
  render_semaphore : handle;
  usage_fence : handle;
  render_fence : handle;
  usage_command_buffer : handle;
  render_command_buffer : handle
}.

Definition with_multi_threading (b : bool) (bb : VulkanBackbuffer) : VulkanBackbuffer :=
  {| bb_valid := bb_valid bb;
     multi_threading := b;
     usage_semaphore := usage_semaphore bb;
     render_semaphore := render_semaphore bb;
     usage_fence := usage_fence bb;
     render_fence := render_fence bb;
     usage_command_buffer := usage_command_buffer bb;
     render_command_buffer := render_command_buffer bb |}.

Definition SetMultiThreading := with_multi_threading true.
Definition UnsetMultiThreading := with_multi_threading false.

(** Modelled from the spec: [vulkan_image.h] is not among the sources.  An
    image wraps one presentable image and mirrors its access mask and layout;
    a barrier that was inserted moves them to its destination, a barrier that
    failed leaves them alone. *)
Record VulkanImage := {
  image_handle : handle;
  image_valid : bool;
  access_flags : Z;
  layout : Z
}.

Definition barrier_applied (ok : bool) (dest_access dest_layout : Z)
    (img : VulkanImage) : VulkanImage :=
  if ok then
    {| image_handle := image_handle img;
       image_valid := image_valid img;
       access_flags := dest_access;
       layout := dest_layout |}
  else img.

(** ** The swapchain object *)

Record VulkanSwapchain := {
  capabilities_ : VkSurfaceCapabilitiesKHR;
  surface_format_ : VkSurfaceFormatKHR;
  swapchain_ : handle;
  backbuffers_ : list VulkanBackbuffer;
  images_ : list VulkanImage;
  surfaces_ : list (option SkSurface);
  current_pipeline_stage_ : Z;
  current_backbuffer_index_ : Z;
  current_image_index_ : Z;
  valid_ : bool
}.

Definition set_backbuffers (l : list VulkanBackbuffer) (s : VulkanSwapchain) :=
  {| capabilities_ := capabilities_ s; surface_format_ := surface_format_ s;
     swapchain_ := swapchain_ s; backbuffers_ := l; images_ := images_ s;
     surfaces_ := surfaces_ s;
     current_pipeline_stage_ := current_pipeline_stage_ s;
     current_backbuffer_index_ := current_backbuffer_index_ s;
     current_image_index_ := current_image_index_ s; valid_ := valid_ s |}.

Definition set_images (l : list VulkanImage) (s : VulkanSwapchain) :=
  {| capabilities_ := capabilities_ s; surface_format_ := surface_format_ s;
     swapchain_ := swapchain_ s; backbuffers_ := backbuffers_ s; images_ := l;
     surfaces_ := surfaces_ s;
     current_pipeline_stage_ := current_pipeline_stage_ s;
     current_backbuffer_index_ := current_backbuffer_index_ s;
     current_image_index_ := current_image_index_ s; valid_ := valid_ s |}.

Definition set_surfaces (l : list (option SkSurface)) (s : VulkanSwapchain) :=
  {| capabilities_ := capabilities_ s; surface_format_ := surface_format_ s;
     swapchain_ := swapchain_ s; backbuffers_ := backbuffers_ s;
     images_ := images_ s; surfaces_ := l;
     current_pipeline_stage_ := current_pipeline_stage_ s;
     current_backbuffer_index_ := current_backbuffer_index_ s;
     current_image_index_ := current_image_index_ s; valid_ := valid_ s |}.

Definition set_current_pipeline_stage (v : Z) (s : VulkanSwapchain) :=
  {| capabilities_ := capabilities_ s; surface_format_ := surface_format_ s;
     swapchain_ := swapchain_ s; backbuffers_ := backbuffers_ s;
     images_ := images_ s; surfaces_ := surfaces_ s;
     current_pipeline_stage_ := v;
     current_backbuffer_index_ := current_backbuffer_index_ s;
     current_image_index_ := current_image_index_ s; valid_ := valid_ s |}.

Definition set_current_backbuffer_index (v : Z) (s : VulkanSwapchain) :=
  {| capabilities_ := capabilities_ s; surface_format_ := surface_format_ s;
     swapchain_ := swapchain_ s; backbuffers_ := backbuffers_ s;
     images_ := images_ s; surfaces_ := surfaces_ s;
     current_pipeline_stage_ := current_pipeline_stage_ s;
     current_backbuffer_index_ := v;
     current_image_index_ := current_image_index_ s; valid_ := valid_ s |}.

Definition set_current_image_index (v : Z) (s : VulkanSwapchain) :=
  {| capabilities_ := capabilities_ s; surface_format_ := surface_format_ s;
     swapchain_ := swapchain_ s; backbuffers_ := backbuffers_ s;
     images_ := images_ s; surfaces_ := surfaces_ s;
     current_pipeline_stage_ := current_pipeline_stage_ s;
     current_backbuffer_index_ := current_backbuffer_index_ s;
     current_image_index_ := v; valid_ := valid_ s |}.

Definition set_valid (v : bool) (s : VulkanSwapchain) :=
  {| capabilities_ := capabilities_ s; surface_format_ := surface_format_ s;
     swapchain_ := swapchain_ s; backbuffers_ := backbuffers_ s;
     images_ := images_ s; surfaces_ := surfaces_ s;
     current_pipeline_stage_ := current_pipeline_stage_ s;
     current_backbuffer_index_ := current_backbuffer_index_ s;
     current_image_index_ := current_image_index_ s; valid_ := v |}.

Inductive AcquireStatus := Success | ErrorSurfaceLost | ErrorSurfaceOutOfDate.

Definition AcquireResult : Type := AcquireStatus * option SkSurface.

(** ** The log of external calls *)

Inductive RegistryAccess := RegEmpty | RegInsert | RegIterate | RegClear.

Inductive Event :=
| EvWaitFences (usage render : handle) (ok : bool)
| EvResetFences (usage render : handle) (ok : bool)
| EvAcquireNextImageKHR (swapchain : handle) (timeout : Z)
    (semaphore fence : handle) (result : VkResult) (index : Z)
| EvBegin (command_buffer : handle) (ok : bool)
| EvInsertImageMemoryBarrier (image command_buffer : handle)
    (src_pipeline_bits dest_pipeline_bits dest_access_flags dest_layout : Z)
    (ok : bool)
| EvEnd (command_buffer : handle) (ok : bool)
| EvQueueSubmit (wait_dest_pipeline_stages : list Z)
    (wait_semaphores signal_semaphores command_buffers : list handle)
    (fence : handle) (ok : bool)
| EvQueuePresentKHR (wait_semaphores swapchains : list handle)
    (image_indices : list Z) (result : VkResult)
| EvGetBackendRenderTarget (surface : SkSurface) (ok : bool)
| EvSetVkImageLayout (surface : SkSurface) (image_layout : Z)
| EvFlush (surface : SkSurface)
| EvMultiThreading (usage render : handle) (flag : bool)
| EvChooseSurfaceFormat (desired_formats : list VkFormat) (index : Z)
| EvLock
| EvUnlock
| EvRegistry (access : RegistryAccess).

(** ** Statements with early return

    A statement runs on a state and a log.  It falls through to the next
    statement ([Next]), leaves the function with a value ([Ret]), or has no
    defined behaviour ([Undef]). *)

Inductive Flow (St R A : Type) :=
| Next (a : A) (s : St) (log : list Event)
| Ret (r : R) (s : St) (log : list Event)
| Undef.

Arguments Next {St R A} a s log.
Arguments Ret {St R A} r s log.
Arguments Undef {St R A}.

Definition Stmt (St R A : Type) : Type := St → list Event → Flow St R A.

Definition pure {St R A} (a : A) : Stmt St R A := λ s log, Next a s log.

Definition bind {St R A B} (c : Stmt St R A) (k : A → Stmt St R B) : Stmt St R B :=
  λ s log,
    match c s log with
    | Next a s' log' => k a s' log'
    | Ret r s' log' => Ret r s' log'
    | Undef => Undef
    end.

Definition ret {St R A} (r : R) : Stmt St R A := λ s log, Ret r s log.
Definition undefined {St R A} : Stmt St R A := λ _ _, Undef.
Definition get {St R} : Stmt St R St := λ s log, Next s s log.
Definition modify {St R} (f : St → St) : Stmt St R unit := λ s log, Next tt (f s) log.
Definition emit {St R} (e : Event) : Stmt St R unit := λ s log, Next tt s (log ++ [e]).

(** [v[i]]: the element, or undefined behaviour past the end. *)
Definition index {St R A} (v : list A) (i : Z) : Stmt St R A :=
  match v !! Z.to_nat i with
  | Some a => pure a
  | None => undefined
  end.

(** stdpp's monad notations: [x ← c; k] and [c;; k]. *)
#[global] Instance Stmt_bind {St R} : MBind (Stmt St R) := λ A B k c, bind c k.
#[global] Instance Stmt_ret {St R} : MRet (Stmt St R) := λ A a, pure a.

(** A function body run from an empty log: the value it returns (falling off
    the end of the body returns the last value), the final state, the log. *)
Definition call {St R} (body : Stmt St R R) (s : St) : option (R * St * list Event) :=
  match body s [] with
  | Next r s' log | Ret r s' log => Some (r, s', log)
  | Undef => None
  end.

(** A callee with its own [return]s, used as one statement of the caller. *)
Definition invoke {St R R'} (body : Stmt St R' R') : Stmt St R R' :=
  λ s log,
    match body s log with
    | Next r s' log' | Ret r s' log' => Next r s' log'
    | Undef => Undef
    end.

(** ** What the device, the platform and Skia answer

    One record serves [AcquireSurface], [FlushCommands], [Submit] and
    [PresentAll]: each of them makes each of these calls at most once.

    [iteration_order] is the standard library's part: [std::unordered_map]
    promises no order in which a range-for yields its entries (it depends on
    the hash function, the bucket count and the history of the container), so
    the order of one walk is an answer like the others.  It is read by
    [iterate] below. *)
Record Platform := {
  WaitFences : bool;
  ResetFences : bool;
  AcquireNextImageKHR : VkResult * Z;
  Begin : bool;
  InsertPipelineBarrier : bool;
  End_ : bool;
  QueueSubmit : bool;
  backendRT_isValid : bool;
  QueuePresentKHR : VkResult;
  iteration_order : list nat
}.

(** The entries of a container in the order [picks] yields them: each number
    says which of the entries not yet visited comes next, counted modulo how
    many are left; when the numbers run out the rest follows as it stands.
    Whatever the numbers, every entry is visited once, and every order is the
    order of some numbers ([iterate_Permutation], [iterate_any_order]). *)
Fixpoint iterate {A} (picks : list nat) (entries : list A) : list A :=
  match picks with
  | [] => entries
  | k :: picks =>
    let i := (k mod length entries)%nat in
    match entries !! i with
    | Some entry => entry :: iterate picks (delete i entries)
    | None => []
    end
  end.

(** ** Member functions of one chain *)

Definition IsValid (this : VulkanSwapchain) : bool := valid_ this.

Definition GetSize (this : VulkanSwapchain) : SkISize :=
  let caps := capabilities_ this in
  let extents := currentExtent caps in
  let extents_width :=
    if width extents <? width (minImageExtent caps) then width (minImageExtent caps)
    else if width extents >? width (maxImageExtent caps) then width (maxImageExtent caps)
    else width extents in
  let extents_height :=
    if height extents <? height (minImageExtent caps) then height (minImageExtent caps)
    else if height extents >? height (maxImageExtent caps) then height (maxImageExtent caps)
    else height extents in
  SkISize_Make extents_width extents_height.

(** The returned pointer is the position of the slot in [backbuffers_]. *)
Definition GetNextBackbuffer : Stmt VulkanSwapchain (option Z) (option Z) :=
  this ← get;
  let available_backbuffers := Z.of_nat (length (backbuffers_ this)) in
  if available_backbuffers =? 0 then ret None else
  let next_backbuffer_index :=
    ((current_backbuffer_index_ this + 1) mod SIZE_MODULUS)
      mod Z.of_nat (length (backbuffers_ this)) in
  backbuffer ← index (backbuffers_ this) next_backbuffer_index;
  if negb (bb_valid backbuffer) then ret None else
  modify (set_current_backbuffer_index next_backbuffer_index);;
  ret (Some next_backbuffer_index).

(** Modelled from the spec: [VulkanImage::InsertImageMemoryBarrier] is not
    among the sources.  Called on [images_[i]], it records one pipeline
    barrier into the command buffer
    ([VulkanCommandBuffer::InsertPipelineBarrier], whose answer it returns)
    and moves the image's tracked access mask and layout only when that
    succeeded. *)
Definition InsertImageMemoryBarrier {R} (vk : Platform) (i : Z)
    (command_buffer : handle)
    (src_pipeline_bits dest_pipeline_bits dest_access_flags dest_layout : Z)
    : Stmt VulkanSwapchain R bool :=
  this ← get;
  image ← index (images_ this) i;
  emit (EvInsertImageMemoryBarrier (image_handle image) command_buffer
          src_pipeline_bits dest_pipeline_bits dest_access_flags dest_layout
          (InsertPipelineBarrier vk));;
  modify (set_images
            (alter (barrier_applied (InsertPipelineBarrier vk)
                      dest_access_flags dest_layout)
                   (Z.to_nat i) (images_ this)));;
  mret (InsertPipelineBarrier vk).

Definition AcquireSurface (vk : Platform)
    : Stmt VulkanSwapchain AcquireResult AcquireResult :=
  let error : AcquireResult := (ErrorSurfaceLost, None) in
  this ← get;
  if negb (IsValid this) then ret error else
  (* Step 0: acquire the next available backbuffer. *)
  backbuffer ← invoke GetNextBackbuffer;
  match backbuffer with
  | None => ret error
  | Some p =>
    this ← get;
    bb ← index (backbuffers_ this) p;
    (if negb (multi_threading bb) then
       (* Step 1: wait for use readiness. *)
       emit (EvWaitFences (usage_fence bb) (render_fence bb) (WaitFences vk));;
       if negb (WaitFences vk) then ret error else
       (* Step 2: put the fences in unsignaled state. *)
       emit (EvResetFences (usage_fence bb) (render_fence bb) (ResetFences vk));;
       if negb (ResetFences vk) then ret error else mret tt
     else mret tt);;
    (* Step 3: acquire the next image index. *)
    let acquire_result := (AcquireNextImageKHR vk).1 in
    let next_image_index := to_uint32 (AcquireNextImageKHR vk).2 in
    emit (EvAcquireNextImageKHR (swapchain_ this) UINT64_MAX
            (usage_semaphore bb) VK_NULL_HANDLE acquire_result next_image_index);;
    (if acquire_result =? VK_SUCCESS then mret tt
     else if acquire_result =? VK_ERROR_OUT_OF_DATE_KHR
       then ret (ErrorSurfaceOutOfDate, None)
     else if acquire_result =? VK_ERROR_SURFACE_LOST_KHR
       then ret (ErrorSurfaceLost, None)
     else ret (ErrorSurfaceLost, None));;
    (* Simple sanity checking of image index. *)
    if next_image_index >=? Z.of_nat (length (images_ this)) then ret error else
    image ← index (images_ this) next_image_index;
    if negb (image_valid image) then ret error else
    (* Step 4: start recording to the command buffer. *)
    emit (EvBegin (usage_command_buffer bb) (Begin vk));;
    if negb (Begin vk) then ret error else
    (* Step 5: set image layout to color attachment mode. *)
    let destination_pipeline_stage := VK_PIPELINE_STAGE_COLOR_ATTACHMENT_OUTPUT_BIT in
    let destination_image_layout := VK_IMAGE_LAYOUT_COLOR_ATTACHMENT_OPTIMAL in
    inserted ← InsertImageMemoryBarrier vk next_image_index
                 (usage_command_buffer bb)
                 (current_pipeline_stage_ this)
                 destination_pipeline_stage
                 VK_ACCESS_COLOR_ATTACHMENT_WRITE_BIT
                 destination_image_layout;
    if negb inserted then ret error else
    modify (set_current_pipeline_stage destination_pipeline_stage);;
    (* Step 6: end recording to the command buffer. *)
    emit (EvEnd (usage_command_buffer bb) (End_ vk));;
    if negb (End_ vk) then ret error else
    (* Step 7: submit the command buffer to the device queue. *)
    let wait_semaphores := [usage_semaphore bb] in
    let signal_semaphores := [] in
    let command_buffers := [usage_command_buffer bb] in
    emit (EvQueueSubmit [destination_pipeline_stage] wait_semaphores
            signal_semaphores command_buffers (usage_fence bb) (QueueSubmit vk));;
    if negb (QueueSubmit vk) then ret error else
    (* reset to not under multi-threading by default *)
    emit (EvMultiThreading (usage_fence bb) (render_fence bb) false);;
    modify (λ this, set_backbuffers
                      (alter UnsetMultiThreading (Z.to_nat p) (backbuffers_ this))
                      this);;
    (* Step 8: tell Skia about the updated image layout. *)
    this ← get;
    surface ← index (surfaces_ this) next_image_index;
    match surface with
    | None => ret error
    | Some sk_surface =>
      emit (EvGetBackendRenderTarget sk_surface (backendRT_isValid vk));;
      if negb (backendRT_isValid vk) then ret error else
      emit (EvSetVkImageLayout sk_surface destination_image_layout);;
      modify (set_current_image_index next_image_index);;
      ret (Success, Some sk_surface)
    end
  end.

(** [FlushCommands] records the render command buffer and stops there;
    [Submit] below repeats it statement for statement and goes on to submit
    and present.  [surface->flush()] through a null [sk_sp] has no defined
    behaviour. *)
Definition FlushCommands (vk : Platform) : Stmt VulkanSwapchain bool bool :=
  this ← get;
  if negb (IsValid this) then ret false else
  surface ← index (surfaces_ this) (current_image_index_ this);
  image ← index (images_ this) (current_image_index_ this);
  backbuffer ← index (backbuffers_ this) (current_backbuffer_index_ this);
  (* Step 0: make sure Skia has flushed all work for the surface. *)
  sk_surface ← from_option mret undefined surface;
  emit (EvFlush sk_surface);;
  (* Step 1: start recording to the command buffer. *)
  emit (EvBegin (render_command_buffer backbuffer) (Begin vk));;
  if negb (Begin vk) then ret false else
  (* Step 2: set image layout to present mode. *)
  let destination_pipeline_stage := VK_PIPELINE_STAGE_BOTTOM_OF_PIPE_BIT in
  let destination_image_layout := VK_IMAGE_LAYOUT_PRESENT_SRC_KHR in
  inserted ← InsertImageMemoryBarrier vk (current_image_index_ this)
               (render_command_buffer backbuffer)
               (current_pipeline_stage_ this)
               destination_pipeline_stage
               VK_ACCESS_MEMORY_READ_BIT
               destination_image_layout;
  if negb inserted then ret false else
  modify (set_current_pipeline_stage destination_pipeline_stage);;
  (* Step 3: end recording to the command buffer. *)
  emit (EvEnd (render_command_buffer backbuffer) (End_ vk));;
  if negb (End_ vk) then ret false else
  ret true.

Definition Submit (vk : Platform) : Stmt VulkanSwapchain bool bool :=
  this ← get;
  if negb (IsValid this) then ret false else
  surface ← index (surfaces_ this) (current_image_index_ this);
  image ← index (images_ this) (current_image_index_ this);
  backbuffer ← index (backbuffers_ this) (current_backbuffer_index_ this);
  (* Step 0: make sure Skia has flushed all work for the surface. *)
  sk_surface ← from_option mret undefined surface;
  emit (EvFlush sk_surface);;
  (* Step 1: start recording to the command buffer. *)
  emit (EvBegin (render_command_buffer backbuffer) (Begin vk));;
  if negb (Begin vk) then ret false else
  (* Step 2: set image layout to present mode. *)
  let destination_pipeline_stage := VK_PIPELINE_STAGE_BOTTOM_OF_PIPE_BIT in
  let destination_image_layout := VK_IMAGE_LAYOUT_PRESENT_SRC_KHR in
  inserted ← InsertImageMemoryBarrier vk (current_image_index_ this)
               (render_command_buffer backbuffer)
               (current_pipeline_stage_ this)
               destination_pipeline_stage
               VK_ACCESS_MEMORY_READ_BIT
               destination_image_layout;
  if negb inserted then ret false else
  modify (set_current_pipeline_stage destination_pipeline_stage);;
  (* Step 3: end recording to the command buffer. *)
  emit (EvEnd (render_command_buffer backbuffer) (End_ vk));;
  if negb (End_ vk) then ret false else
  (* Step 4: submit the command buffer; signal the render semaphore. *)
  let wait_semaphores := [] in
  let queue_signal_semaphores := [render_semaphore backbuffer] in
  let command_buffers := [render_command_buffer backbuffer] in
  emit (EvQueueSubmit [] wait_semaphores queue_signal_semaphores
          command_buffers (render_fence backbuffer) (QueueSubmit vk));;
  if negb (QueueSubmit vk) then ret false else
  emit (EvMultiThreading (usage_fence backbuffer) (render_fence backbuffer) false);;
  modify (λ this, set_backbuffers
                    (alter UnsetMultiThreading
                       (Z.to_nat (current_backbuffer_index_ this))
                       (backbuffers_ this))
                    this);;
  (* Step 5: submit the present operation, waiting on the render semaphore. *)
  let present_image_index := to_uint32 (current_image_index_ this) in
  emit (EvQueuePresentKHR queue_signal_semaphores [swapchain_ this]
          [present_image_index] (QueuePresentKHR vk));;
  if negb (QueuePresentKHR vk =? VK_SUCCESS) then ret false else
  ret true.

(** ** The process-wide registry

    [to_be_present_] maps a thread to the chain it wants presented; the chains
    live in the object store, addressed by pointer.  [map_mutex_] shows up in
    the log as [EvLock] / [EvUnlock]; the [lock_guard] releases it on every way
    out of its scope. *)

Definition thread_id := positive.
Definition pointer := positive.

Record Process := {
  objects : gmap pointer VulkanSwapchain;
  to_be_present_ : gmap thread_id pointer
}.

Definition set_objects (m : gmap pointer VulkanSwapchain) (p : Process) : Process :=
  {| objects := m; to_be_present_ := to_be_present_ p |}.

Definition set_to_be_present (m : gmap thread_id pointer) (p : Process) : Process :=
  {| objects := objects p; to_be_present_ := m |}.

(** [this->AddToPresent()] called on thread [this_thread]. *)
Definition AddToPresent (this : pointer) (this_thread : thread_id)
    : Stmt Process unit unit :=
  emit EvLock;;
  emit (EvRegistry RegInsert);;
  modify (λ p, set_to_be_present (<[this_thread := this]> (to_be_present_ p)) p);;
  emit EvUnlock;;
  ret tt.

(** The vectors [PresentAll] fills while it walks the registry. *)
Record Batch := {
  queue_signal_semaphores : list handle;
  command_buffers : list handle;
  swapchains : list handle;
  present_image_indices : list Z;
  tmpSwapChain : option pointer
}.

Definition empty_batch : Batch :=
  {| queue_signal_semaphores := []; command_buffers := []; swapchains := [];
     present_image_indices := []; tmpSwapChain := None |}.

(** The body of [for (const auto& entry : to_be_present_)], over the entries
    in the order the container yields them.  Following a pointer that is not
    in the object store has no defined behaviour. *)
Fixpoint collect (entries : list (thread_id * pointer)) (b : Batch)
    : Stmt Process unit Batch :=
  match entries with
  | [] => mret b
  | entry :: rest =>
    let swapchain := entry.2 in
    p ← get;
    chain ← from_option mret undefined (objects p !! swapchain);
    backbuffer ← index (backbuffers_ chain) (current_backbuffer_index_ chain);
    emit (EvMultiThreading (usage_fence backbuffer) (render_fence backbuffer) true);;
    modify (set_objects
              (<[swapchain :=
                   set_backbuffers
                     (alter SetMultiThreading
                        (Z.to_nat (current_backbuffer_index_ chain))
                        (backbuffers_ chain))
                     chain]> (objects p)));;
    collect rest
      {| queue_signal_semaphores :=
           queue_signal_semaphores b ++ [render_semaphore backbuffer];
         command_buffers := command_buffers b ++ [render_command_buffer backbuffer];
         swapchains := swapchains b ++ [swapchain_ chain];
         present_image_indices :=
           present_image_indices b ++ [to_uint32 (current_image_index_ chain)];
         tmpSwapChain := match tmpSwapChain b with
                         | None => Some swapchain
                         | Some first => Some first
                         end |}
  end.

Definition PresentAll (shared_fence : handle) (vk : Platform)
    : Stmt Process unit unit :=
  p ← get;
  emit (EvRegistry RegEmpty);;
  if bool_decide (to_be_present_ p = ∅) then ret tt else
  emit EvLock;;
  let wait_semaphores := [] in
  emit (EvRegistry RegIterate);;
  b ← collect (iterate (iteration_order vk) (map_to_list (to_be_present_ p)))
        empty_batch;
  emit (EvQueueSubmit [] wait_semaphores (queue_signal_semaphores b)
          (command_buffers b) shared_fence (QueueSubmit vk));;
  if negb (QueueSubmit vk) then emit EvUnlock;; ret tt else
  (* present multiple swapchain all at once *)
  emit (EvQueuePresentKHR (queue_signal_semaphores b) (swapchains b)
          (present_image_indices b) (QueuePresentKHR vk));;
  if negb (QueuePresentKHR vk =? VK_SUCCESS) then emit EvUnlock;; ret tt else
  emit (EvRegistry RegClear);;
  modify (set_to_be_present ∅);;
  emit EvUnlock;;
  ret tt.

(** A member function called through a pointer into the object store. *)
Definition on_object {R} (this : pointer) (body : Stmt VulkanSwapchain R R)
    : Stmt Process R R :=
  λ p log,
    match objects p !! this with
    | None => Undef
    | Some chain =>
      match call body chain with
      | Some (r, chain', events) =>
        Ret r (set_objects (<[this := chain']> (objects p)) p) (log ++ events)
      | None => Undef
      end
    end.

(** What the walk over the registry does to a chain, and to the object store
    after the chains behind [ptrs] have been walked. *)
Definition batched (chain : VulkanSwapchain) : VulkanSwapchain :=
  set_backbuffers
    (alter SetMultiThreading (Z.to_nat (current_backbuffer_index_ chain))
       (backbuffers_ chain))
    chain.

Definition mark_all (ptrs : list pointer) (m : gmap pointer VulkanSwapchain)
    : gmap pointer VulkanSwapchain :=
  foldl (λ m ptr, alter batched ptr m) m ptrs.

(** What one registered chain contributes to the batched submit and present:
    the render semaphore and render command buffer of its current backbuffer,
    its native handle, its acquired image index, and the fences that name the
    backbuffer in the log. *)
Record Contribution := {
  c_render_semaphore : handle;
  c_command_buffer : handle;
  c_swapchain : handle;
  c_image_index : Z;
  c_usage_fence : handle;
  c_render_fence : handle
}.

(** The backbuffer the chain currently points at. *)
Definition current_backbuffer (this : VulkanSwapchain) : option VulkanBackbuffer :=
  backbuffers_ this !! Z.to_nat (current_backbuffer_index_ this).

Definition contribution (chain : VulkanSwapchain) : option Contribution :=
  backbuffer ← current_backbuffer chain;
  Some {| c_render_semaphore := render_semaphore backbuffer;
          c_command_buffer := render_command_buffer backbuffer;
          c_swapchain := swapchain_ chain;
          c_image_index := current_image_index_ chain;
          c_usage_fence := usage_fence backbuffer;
          c_render_fence := render_fence backbuffer |}.

Definition contributions_of (m : gmap pointer VulkanSwapchain)
    (entries : list (thread_id * pointer)) : list Contribution :=
  omap (λ entry, m !! entry.2 ≫= contribution) entries.

(** The contributions of the registered chains, in registry order. *)
Definition contributions (p : Process) : list Contribution :=
  contributions_of (objects p) (map_to_list (to_be_present_ p)).

(** The registry entries in the order one [PresentAll] under [vk] visits
    them, and the contributions of their chains in that order. *)
Definition walk (vk : Platform) (p : Process) : list (thread_id * pointer) :=
  iterate (iteration_order vk) (map_to_list (to_be_present_ p)).

Definition walked (vk : Platform) (p : Process) : list Contribution :=
  contributions_of (objects p) (walk vk p).

(** The vectors after the walk has added the contributions [cs] of [entries]
    to those of [b], and the calls on the backbuffers it has logged. *)
Definition batch_with (b : Batch) (entries : list (thread_id * pointer))
    (cs : list Contribution) : Batch :=
  {| queue_signal_semaphores := queue_signal_semaphores b ++ (c_render_semaphore <$> cs);
     command_buffers := command_buffers b ++ (c_command_buffer <$> cs);
     swapchains := swapchains b ++ (c_swapchain <$> cs);
     present_image_indices :=
       present_image_indices b ++ ((λ c, to_uint32 (c_image_index c)) <$> cs);
     tmpSwapChain := match tmpSwapChain b with
                     | None => head entries.*2
                     | Some first => Some first
                     end |}.

Definition marks (cs : list Contribution) : list Event :=
  (λ c, EvMultiThreading (c_usage_fence c) (c_render_fence c) true) <$> cs.

(** ** Construction *)

Record FormatInfo := {
  format_ : VkFormat;
  color_type_ : SkColorType;
  color_space_ : SkColorSpace
}.

Definition DesiredFormatInfos : list FormatInfo :=
  [ {| format_ := VK_FORMAT_R8G8B8A8_SRGB; color_type_ := kRGBA_8888_SkColorType;
       color_space_ := SRGBLinear |};
    {| format_ := VK_FORMAT_B8G8R8A8_SRGB; color_type_ := kBGRA_8888_SkColorType;
       color_space_ := SRGBLinear |};
    {| format_ := VK_FORMAT_R16G16B16A16_SFLOAT; color_type_ := kRGBA_F16_SkColorType;
       color_space_ := SRGBLinear |};
    {| format_ := VK_FORMAT_R8G8B8A8_UNORM; color_type_ := kRGBA_8888_SkColorType;
       color_space_ := SRGB |};
    {| format_ := VK_FORMAT_B8G8R8A8_UNORM; color_type_ := kRGBA_8888_SkColorType;
       color_space_ := SRGB |} ].

(** The fields of [VkSwapchainCreateInfoKHR] that are not constants. *)
Record VkSwapchainCreateInfoKHR := {
  ci_surface : handle;
  ci_minImageCount : Z;
  ci_imageFormat : VkFormat;
  ci_imageColorSpace : Z;
  ci_imageExtent : VkExtent2D;
  ci_presentMode : Z;
  ci_oldSwapchain : handle
}.

(** [GrContext]: what the swapchain asks of it. *)
Record GrContext := {
  colorTypeSupportedAsSurface : SkColorType → bool;
  MakeFromBackendRenderTarget : handle → SkISize → SkColorType → option SkSurface
}.

(** The constructor's arguments and the answers it gets. *)
Record Construction := {
  device_IsValid : bool;
  surface_IsValid : bool;
  surface_Handle : handle;
  skia_context : option GrContext;
  old_swapchain : option VulkanSwapchain;
  GetSurfaceCapabilities : option VkSurfaceCapabilitiesKHR;
  ChooseSurfaceFormat : list VkFormat → Z * VkSurfaceFormatKHR;
  ChoosePresentMode : option Z;
  GetPhysicalDeviceSurfaceSupportKHR : VkResult * Z;
  CreateSwapchainKHR : VkSwapchainCreateInfoKHR → VkResult * handle;
  GetSwapchainImagesKHR_count : VkResult * Z;
  GetSwapchainImagesKHR_images : VkResult * (nat → handle);
  new_VulkanBackbuffer : nat → VulkanBackbuffer;
  VulkanImage_IsValid : handle → bool
}.

Definition new_VulkanImage (c : Construction) (image : handle) : VulkanImage :=
  {| image_handle := image;
     image_valid := VulkanImage_IsValid c image;
     access_flags := 0;
     layout := VK_IMAGE_LAYOUT_UNDEFINED |}.

Definition GetImages (c : Construction) : list handle :=
  if negb ((GetSwapchainImagesKHR_count c).1 =? VK_SUCCESS) then [] else
  let count := to_uint32 (GetSwapchainImagesKHR_count c).2 in
  if count =? 0 then [] else
  if negb ((GetSwapchainImagesKHR_images c).1 =? VK_SUCCESS) then [] else
  (GetSwapchainImagesKHR_images c).2 <$> seq 0 (Z.to_nat count).

Definition CreateSkiaSurface (gr_context : option GrContext) (image : handle)
    (size : SkISize) (color_type : SkColorType) : option SkSurface :=
  match gr_context with
  | None => None
  | Some gr =>
    match color_type with
    | kUnknown_SkColorType => None
    | _ => MakeFromBackendRenderTarget gr image size color_type
    end
  end.

(** The body of [for (const VkImage& image : images)]; [n] counts the
    backbuffers made so far. *)
Fixpoint populate (c : Construction) (color_type : SkColorType)
    (surface_size : SkISize) (n : nat) (images : list handle)
    : Stmt VulkanSwapchain bool unit :=
  match images with
  | [] => mret tt
  | image :: rest =>
    (* Populate the backbuffer. *)
    let backbuffer := new_VulkanBackbuffer c n in
    if negb (bb_valid backbuffer) then ret false else
    modify (λ this, set_backbuffers (backbuffers_ this ++ [backbuffer]) this);;
    (* Populate the image. *)
    let vulkan_image := new_VulkanImage c image in
    if negb (image_valid vulkan_image) then ret false else
    modify (λ this, set_images (images_ this ++ [vulkan_image]) this);;
    (* Populate the surface. *)
    match CreateSkiaSurface (skia_context c) image surface_size color_type with
    | None => ret false
    | Some surface =>
      modify (λ this, set_surfaces (surfaces_ this ++ [Some surface]) this);;
      populate c color_type surface_size (S n) rest
    end
  end.

Definition CreateSwapchainImages (c : Construction) (color_type : SkColorType)
    : Stmt VulkanSwapchain bool bool :=
  let images := GetImages c in
  if Z.of_nat (length images) =? 0 then ret false else
  this ← get;
  let surface_size := GetSize this in
  populate c color_type surface_size 0 images;;
  ret true.

Definition set_capabilities (v : VkSurfaceCapabilitiesKHR) (s : VulkanSwapchain) :=
  {| capabilities_ := v; surface_format_ := surface_format_ s;
     swapchain_ := swapchain_ s; backbuffers_ := backbuffers_ s;
     images_ := images_ s; surfaces_ := surfaces_ s;
     current_pipeline_stage_ := current_pipeline_stage_ s;
     current_backbuffer_index_ := current_backbuffer_index_ s;
     current_image_index_ := current_image_index_ s; valid_ := valid_ s |}.

Definition set_surface_format (v : VkSurfaceFormatKHR) (s : VulkanSwapchain) :=
  {| capabilities_ := capabilities_ s; surface_format_ := v;
     swapchain_ := swapchain_ s; backbuffers_ := backbuffers_ s;
     images_ := images_ s; surfaces_ := surfaces_ s;
     current_pipeline_stage_ := current_pipeline_stage_ s;
     current_backbuffer_index_ := current_backbuffer_index_ s;
     current_image_index_ := current_image_index_ s; valid_ := valid_ s |}.

Definition set_swapchain (v : handle) (s : VulkanSwapchain) :=
  {| capabilities_ := capabilities_ s; surface_format_ := surface_format_ s;
     swapchain_ := v; backbuffers_ := backbuffers_ s;
     images_ := images_ s; surfaces_ := surfaces_ s;
     current_pipeline_stage_ := current_pipeline_stage_ s;
     current_backbuffer_index_ := current_backbuffer_index_ s;
     current_image_index_ := current_image_index_ s; valid_ := valid_ s |}.

(** The member initialiser list. *)
Definition initial_swapchain : VulkanSwapchain :=
  {| capabilities_ :=
       {| minImageCount := 0;
          currentExtent := {| width := 0; height := 0 |};
          minImageExtent := {| width := 0; height := 0 |};
          maxImageExtent := {| width := 0; height := 0 |} |};
     surface_format_ := {| format := VK_FORMAT_UNDEFINED; colorSpace := 0 |};
     swapchain_ := VK_NULL_HANDLE;
     backbuffers_ := [];
     images_ := [];
     surfaces_ := [];
     current_pipeline_stage_ := VK_PIPELINE_STAGE_TOP_OF_PIPE_BIT;
     current_backbuffer_index_ := 0;
     current_image_index_ := 0;
     valid_ := false |}.

Definition is_null {A} (p : option A) : bool :=
  match p with None => true | Some _ => false end.

(** The [desired_formats] vector the constructor fills before it asks the
    device to choose. *)
Definition desired_formats_of (supported : SkColorType → bool)
    (format_infos : list FormatInfo) : list VkFormat :=
  (λ info, if supported (color_type_ info) then format_ info
           else VK_FORMAT_UNDEFINED) <$> format_infos.

(** The constructor body, run on [initial_swapchain]. *)
Definition VulkanSwapchain_ctor (c : Construction) : Stmt VulkanSwapchain unit unit :=
  if negb (device_IsValid c) || negb (surface_IsValid c)
     || is_null (skia_context c) then ret tt else
  match GetSurfaceCapabilities c with
  | None => ret tt
  | Some caps =>
    modify (set_capabilities caps);;
    let format_infos := DesiredFormatInfos in
    gr ← from_option mret undefined (skia_context c);
    let desired_formats :=
      desired_formats_of (colorTypeSupportedAsSurface gr) format_infos in
    let format_index := (ChooseSurfaceFormat c desired_formats).1 in
    emit (EvChooseSurfaceFormat desired_formats format_index);;
    modify (set_surface_format (ChooseSurfaceFormat c desired_formats).2);;
    if format_index <? 0 then ret tt else
    match ChoosePresentMode c with
    | None => ret tt
    | Some present_mode =>
      (* Check if the surface can present. *)
      if negb ((GetPhysicalDeviceSurfaceSupportKHR c).1 =? VK_SUCCESS)
      then ret tt else
      if negb ((GetPhysicalDeviceSurfaceSupportKHR c).2 =? VK_TRUE)
      then ret tt else
      (* Construct the swapchain. *)
      let old_swapchain_handle :=
        match old_swapchain c with
        | Some old => if IsValid old then swapchain_ old else VK_NULL_HANDLE
        | None => VK_NULL_HANDLE
        end in
      this ← get;
      let create_info :=
        {| ci_surface := surface_Handle c;
           ci_minImageCount := minImageCount (capabilities_ this);
           ci_imageFormat := format (surface_format_ this);
           ci_imageColorSpace := colorSpace (surface_format_ this);
           ci_imageExtent := currentExtent (capabilities_ this);
           ci_presentMode := present_mode;
           ci_oldSwapchain := old_swapchain_handle |} in
      if negb ((CreateSwapchainKHR c create_info).1 =? VK_SUCCESS)
      then ret tt else
      modify (set_swapchain (CreateSwapchainKHR c create_info).2);;
      info ← index format_infos format_index;
      created ← invoke (CreateSwapchainImages c (color_type_ info));
      if negb created then ret tt else
      modify (set_valid true);;
      ret tt
    end
  end.

(** The object a constructor call leaves behind ([None]: the call had no
    defined behaviour). *)
Definition construct (c : Construction) : option VulkanSwapchain :=
  match call (VulkanSwapchain_ctor c) initial_swapchain with
  | Some (_, this, _) => Some this
  | None => None
  end.

(** ** Sequences of public operations on a process *)

Inductive Operation :=
| OpAcquireSurface (this : pointer) (vk : Platform)
| OpSubmit (this : pointer) (vk : Platform)
| OpFlushCommands (this : pointer) (vk : Platform)
| OpAddToPresent (this : pointer) (this_thread : thread_id)
| OpPresentAll (shared_fence : handle) (vk : Platform).

Definition perform (op : Operation) : Stmt Process unit unit :=
  match op with
  | OpAcquireSurface this vk => invoke (on_object this (AcquireSurface vk));; mret tt
  | OpSubmit this vk => invoke (on_object this (Submit vk));; mret tt
  | OpFlushCommands this vk => invoke (on_object this (FlushCommands vk));; mret tt
  | OpAddToPresent this this_thread => AddToPresent this this_thread
  | OpPresentAll shared_fence vk => PresentAll shared_fence vk
  end.

(** The process and the log after a sequence of calls, one after the other. *)
Fixpoint run (ops : list Operation) (p : Process) : option (Process * list Event) :=
  match ops with
  | [] => Some (p, [])
  | op :: rest =>
    match call (perform op) p with
    | Some (_, p1, events) =>
      match run rest p1 with
      | Some (p2, events') => Some (p2, events ++ events')
      | None => None
      end
    | None => None
    end
  end.

(** ** Reading a log *)

(** The answer of the first [vkAcquireNextImageKHR] call in the log. *)
Fixpoint acquire_answer (log : list Event) : option VkResult :=
  match log with
  | [] => None
  | EvAcquireNextImageKHR _ _ _ _ result _ :: _ => Some result
  | _ :: rest => acquire_answer rest
  end.

(** The answer of the first barrier insertion in the log. *)
Fixpoint barrier_answer (log : list Event) : option bool :=
  match log with
  | [] => None
  | EvInsertImageMemoryBarrier _ _ _ _ _ _ ok :: _ => Some ok
  | _ :: rest => barrier_answer rest
  end.

(** The answer of the first queue submit in the log. *)
Fixpoint submit_answer (log : list Event) : option bool :=
  match log with
  | [] => None
  | EvQueueSubmit _ _ _ _ _ ok :: _ => Some ok
  | _ :: rest => submit_answer rest
  end.

Definition is_fence_event (e : Event) : bool :=
  match e with
  | EvWaitFences _ _ _ | EvResetFences _ _ _ => true
  | _ => false
  end.

Definition is_submit (e : Event) : bool :=
  match e with EvQueueSubmit _ _ _ _ _ _ => true | _ => false end.

Definition is_present (e : Event) : bool :=
  match e with EvQueuePresentKHR _ _ _ _ => true | _ => false end.

Definition count_events (f : Event → bool) (log : list Event) : nat :=
  length (filter (λ e, f e = true) log).

(** Lock discipline: walking the log with the state of [map_mutex_], every
    access to the registry happens while the mutex is held, the mutex is not
    taken twice, and it is free again at the end. *)
Fixpoint guarded_from (held : bool) (log : list Event) : bool :=
  match log with
  | [] => negb held
  | EvLock :: rest => negb held && guarded_from true rest
  | EvUnlock :: rest => held && guarded_from false rest
  | EvRegistry _ :: rest => held && guarded_from held rest
  | _ :: rest => guarded_from held rest
  end.

Definition guarded (log : list Event) : bool := guarded_from false log.

(** ** The class invariant of a valid chain *)

Record chain_invariant (this : VulkanSwapchain) : Prop := {
  inv_backbuffers : length (backbuffers_ this) = length (images_ this);
  inv_surfaces : length (surfaces_ this) = length (images_ this);
  inv_nonempty : (0 < length (images_ this))%nat;
  inv_count : Z.of_nat (length (images_ this)) < UINT32_MODULUS;
  inv_image_index :
    0 ≤ current_image_index_ this < Z.of_nat (length (images_ this));
  inv_backbuffer_index :
    0 ≤ current_backbuffer_index_ this < Z.of_nat (length (images_ this));
  inv_surfaces_nonnull : Forall is_Some (surfaces_ this)
}.

(** An invalid chain carries no obligation. *)
Definition chain_ok (this : VulkanSwapchain) : Prop :=
  IsValid this = true → chain_invariant this.

Definition process_ok (p : Process) : Prop :=
  ∀ ptr chain, objects p !! ptr = Some chain → chain_ok chain.

(** Every registered pointer leads to a valid chain in the object store. *)
Definition registered_ok (p : Process) : Prop :=
  ∀ thread ptr, to_be_present_ p !! thread = Some ptr →
    ∃ chain, objects p !! ptr = Some chain
             ∧ IsValid chain = true ∧ chain_invariant chain.

(** The slot the next [AcquireSurface] rotates to. *)
Definition next_slot (this : VulkanSwapchain) : Z :=
  (current_backbuffer_index_ this + 1) mod Z.of_nat (length (backbuffers_ this)).

(** The three arrays after [k] rounds of the construction loop. *)
Definition aligned (k : nat) (this : VulkanSwapchain) : Prop :=
  length (backbuffers_ this) = k ∧ length (images_ this) = k
  ∧ length (surfaces_ this) = k ∧ Forall is_Some (surfaces_ this).

Definition cursors (this : VulkanSwapchain) : bool * Z * Z :=
  (valid_ this, current_backbuffer_index_ this, current_image_index_ this).

(** What a call may do to a chain it finds in the object store: validity is
    fixed at construction, and the class invariant is kept. *)
Definition evolves (chain chain' : VulkanSwapchain) : Prop :=
  valid_ chain' = valid_ chain ∧ (chain_ok chain → chain_ok chain').

Definition objects_evolve (m m' : gmap pointer VulkanSwapchain) : Prop :=
  ∀ ptr, option_Forall2 evolves (m !! ptr) (m' !! ptr).

(** ** What the calls leave alone

    Everything in a chain but its two cursors, its pipeline stage, the
    batched flags of its backbuffers, and the access mask and layout its
    images track. *)

Definition erase_tracking (image : VulkanImage) : VulkanImage :=
  {| image_handle := image_handle image; image_valid := image_valid image;
     access_flags := 0; layout := VK_IMAGE_LAYOUT_UNDEFINED |}.

Record FixedPart := {
  fixed_valid : bool;
  fixed_capabilities : VkSurfaceCapabilitiesKHR;
  fixed_surface_format : VkSurfaceFormatKHR;
  fixed_swapchain : handle;
  fixed_backbuffers : list VulkanBackbuffer;
  fixed_images : list VulkanImage;
  fixed_surfaces : list (option SkSurface)
}.

Definition fixed_part (this : VulkanSwapchain) : FixedPart :=
  {| fixed_valid := valid_ this;
     fixed_capabilities := capabilities_ this;
     fixed_surface_format := surface_format_ this;
     fixed_swapchain := swapchain_ this;
     fixed_backbuffers := UnsetMultiThreading <$> backbuffers_ this;
     fixed_images := erase_tracking <$> images_ this;
     fixed_surfaces := surfaces_ this |}.

(** What a successful [AcquireSurface] under the platform [vk] hands to the
    [Submit] that follows: [this] before the call, [this'] after it. *)
Record acquired (vk : Platform) (this this' : VulkanSwapchain)
    (surface : option SkSurface) : Prop := {
  acq_valid : valid_ this' = true;
  acq_invariant : chain_invariant this';
  acq_image_index :
    current_image_index_ this' = to_uint32 (AcquireNextImageKHR vk).2;
  acq_backbuffer_index : current_backbuffer_index_ this' = next_slot this;
  acq_stage :
    current_pipeline_stage_ this' = VK_PIPELINE_STAGE_COLOR_ATTACHMENT_OUTPUT_BIT;
  acq_swapchain : swapchain_ this' = swapchain_ this;
  acq_surfaces : surfaces_ this' = surfaces_ this;
  acq_surface :
    surfaces_ this !! Z.to_nat (to_uint32 (AcquireNextImageKHR vk).2) = Some surface;
  acq_surface_nonnull : is_Some surface;
  acq_fixed : fixed_part this' = fixed_part this
}.

(** ** What the constructor leaves *)

(** The three arrays after the construction loop has run to its end from
    [this] over [images], numbering the backbuffers from [n]. *)
Definition populated (c : Construction) (color_type : SkColorType)
    (surface_size : SkISize) (n : nat) (images : list handle)
    (this : VulkanSwapchain) : VulkanSwapchain :=
  set_surfaces
    (surfaces_ this
     ++ ((λ image, CreateSkiaSurface (skia_context c) image surface_size color_type)
           <$> images))
    (set_images (images_ this ++ (new_VulkanImage c <$> images))
       (set_backbuffers
          (backbuffers_ this ++ (new_VulkanBackbuffer c <$> seq n (length images)))
          this)).

(** The answers a constructor call must have got to leave [this] valid, and
    what it has put into [this]. *)
Record constructed (c : Construction) (this : VulkanSwapchain) : Prop := {
  made_device : device_IsValid c = true;
  made_surface : surface_IsValid c = true;
  made_context : is_Some (skia_context c);
  made_capabilities : GetSurfaceCapabilities c = Some (capabilities_ this);
  made_present_mode : is_Some (ChoosePresentMode c);
  made_support :
    (GetPhysicalDeviceSurfaceSupportKHR c).1 = VK_SUCCESS
    ∧ (GetPhysicalDeviceSurfaceSupportKHR c).2 = VK_TRUE;
  made_count :
    (GetSwapchainImagesKHR_count c).1 = VK_SUCCESS
    ∧ (GetSwapchainImagesKHR_images c).1 = VK_SUCCESS
    ∧ to_uint32 (GetSwapchainImagesKHR_count c).2 ≠ 0
    ∧ Z.of_nat (length (images_ this)) = to_uint32 (GetSwapchainImagesKHR_count c).2;
  made_backbuffers :
    backbuffers_ this = new_VulkanBackbuffer c <$> seq 0 (length (GetImages c));
  made_images : images_ this = new_VulkanImage c <$> GetImages c;
  made_surfaces : length (surfaces_ this) = length (GetImages c);
  made_backbuffers_valid : Forall (λ bb, bb_valid bb = true) (backbuffers_ this);
  made_images_valid : Forall (λ image, image_valid image = true) (images_ this);
  made_surfaces_nonnull : Forall is_Some (surfaces_ this);
  made_cursors : current_backbuffer_index_ this = 0 ∧ current_image_index_ this = 0;
  made_stage : current_pipeline_stage_ this = VK_PIPELINE_STAGE_TOP_OF_PIPE_BIT
}.

(** ** Sample objects

    A three-slot chain whose slot 1 is flagged as batched, and platforms that
    answer every call with success, or fail one of them. *)

Definition sample_backbuffer (n : Z) (flagged : bool) : VulkanBackbuffer :=
  {| bb_valid := true; multi_threading := flagged;
     usage_semaphore := 10 + n; render_semaphore := 20 + n;
     usage_fence := 30 + n; render_fence := 40 + n;
     usage_command_buffer := 50 + n; render_command_buffer := 60 + n |}.

Definition sample_image (n : Z) : VulkanImage :=
  {| image_handle := 70 + n; image_valid := true; access_flags := 0;
     layout := VK_IMAGE_LAYOUT_UNDEFINED |}.

Definition sample_capabilities : VkSurfaceCapabilitiesKHR :=
  {| minImageCount := 2;
     currentExtent := {| width := 800; height := 5000 |};
     minImageExtent := {| width := 1; height := 1 |};
     maxImageExtent := {| width := 4096; height := 4096 |} |}.

Definition sample_chain : VulkanSwapchain :=
  {| capabilities_ := sample_capabilities;
     surface_format_ := {| format := VK_FORMAT_R8G8B8A8_SRGB; colorSpace := 0 |};
     swapchain_ := 7;
     backbuffers_ := [sample_backbuffer 0 false; sample_backbuffer 1 true;
                      sample_backbuffer 2 false];
     images_ := [sample_image 0; sample_image 1; sample_image 2];
     surfaces_ := [Some 80; Some 81; Some 82];
     current_pipeline_stage_ := VK_PIPELINE_STAGE_TOP_OF_PIPE_BIT;
     current_backbuffer_index_ := 0;
     current_image_index_ := 0;
     valid_ := true |}.

(** The same chain one slot further: the next acquire rotates to slot 2,
    which is not flagged. *)
Definition sample_chain_at_1 : VulkanSwapchain :=
  set_current_backbuffer_index 1 sample_chain.

Definition platform_ok : Platform :=
  {| WaitFences := true; ResetFences := true; AcquireNextImageKHR := (VK_SUCCESS, 2);
     Begin := true; InsertPipelineBarrier := true; End_ := true;
     QueueSubmit := true; backendRT_isValid := true;
     QueuePresentKHR := VK_SUCCESS; iteration_order := [] |}.

Definition platform_out_of_date : Platform :=
  {| WaitFences := true; ResetFences := true;
     AcquireNextImageKHR := (VK_ERROR_OUT_OF_DATE_KHR, 0);
     Begin := true; InsertPipelineBarrier := true; End_ := true;
     QueueSubmit := true; backendRT_isValid := true;
     QueuePresentKHR := VK_SUCCESS; iteration_order := [] |}.

Definition platform_barrier_fails : Platform :=
  {| WaitFences := true; ResetFences := true; AcquireNextImageKHR := (VK_SUCCESS, 2);
     Begin := true; InsertPipelineBarrier := false; End_ := true;
     QueueSubmit := true; backendRT_isValid := true;
     QueuePresentKHR := VK_SUCCESS; iteration_order := [] |}.

Definition platform_submit_fails : Platform :=
  {| WaitFences := true; ResetFences := true; AcquireNextImageKHR := (VK_SUCCESS, 2);
     Begin := true; InsertPipelineBarrier := true; End_ := true;
     QueueSubmit := false; backendRT_isValid := true;
     QueuePresentKHR := VK_SUCCESS; iteration_order := [] |}.

Definition platform_present_fails : Platform :=
  {| WaitFences := true; ResetFences := true; AcquireNextImageKHR := (VK_SUCCESS, 2);
     Begin := true; InsertPipelineBarrier := true; End_ := true;
     QueueSubmit := true; backendRT_isValid := true;
     QueuePresentKHR := VK_ERROR_OUT_OF_DATE_KHR; iteration_order := [] |}.

(** Every call succeeds, and a walk over the registry starts with its second
    entry. *)
Definition platform_other_order : Platform :=
  {| WaitFences := true; ResetFences := true; AcquireNextImageKHR := (VK_SUCCESS, 2);
     Begin := true; InsertPipelineBarrier := true; End_ := true;
     QueueSubmit := true; backendRT_isValid := true;
     QueuePresentKHR := VK_SUCCESS; iteration_order := [1%nat] |}.

(** A second chain, with its own native handle, at slot 1 and image 2. *)
Definition sample_chain_2 : VulkanSwapchain :=
  set_current_image_index 2 (set_swapchain 8 sample_chain_at_1).

(** Two chains in the object store, registered by threads 5 and 3. *)
Definition sample_process : Process :=
  {| objects := {[ 1%positive := sample_chain; 2%positive := sample_chain_2 ]};
     to_be_present_ := {[ 5%positive := 1%positive; 3%positive := 2%positive ]} |}.

(** A renderer that cannot target half-float surfaces, and a platform that
    reports three images; the argument is the device's choice of format. *)
Definition sample_context : GrContext :=
  {| colorTypeSupportedAsSurface :=
       λ color_type, match color_type with
                     | kRGBA_F16_SkColorType => false
                     | _ => true
                     end;
     MakeFromBackendRenderTarget := λ image _ _, Some (image + 10) |}.

Definition sample_construction (choose : list VkFormat → Z * VkSurfaceFormatKHR)
    : Construction :=
  {| device_IsValid := true;
     surface_IsValid := true;
     surface_Handle := 5;
     skia_context := Some sample_context;
     old_swapchain := None;
     GetSurfaceCapabilities := Some sample_capabilities;
     ChooseSurfaceFormat := choose;
     ChoosePresentMode := Some VK_PRESENT_MODE_FIFO_KHR;
     GetPhysicalDeviceSurfaceSupportKHR := (VK_SUCCESS, VK_TRUE);
     CreateSwapchainKHR := λ _, (VK_SUCCESS, 7);
     GetSwapchainImagesKHR_count := (VK_SUCCESS, 3);
     GetSwapchainImagesKHR_images := (VK_SUCCESS, λ n, 70 + Z.of_nat n);
     new_VulkanBackbuffer := λ n, sample_backbuffer (Z.of_nat n) false;
     VulkanImage_IsValid := λ _, true |}.

(** The device finds none of the candidates usable. *)
Definition construction_without_format : Construction :=
  sample_construction
    (λ _, (-1, {| format := VK_FORMAT_UNDEFINED; colorSpace := 0 |})).

(** The device takes the first candidate. *)
Definition construction_with_first_format : Construction :=
  sample_construction
    (λ _, (0, {| format := VK_FORMAT_R8G8B8A8_SRGB; colorSpace := 0 |})).

(** The chain the sample construction makes: three slots, none flagged. *)
Definition sample_made : VulkanSwapchain :=
  set_backbuffers
    [sample_backbuffer 0 false; sample_backbuffer 1 false; sample_backbuffer 2 false]
    sample_chain.

Definition sample_made_process : Process :=
  {| objects := {[ 1%positive := sample_made ]}; to_be_present_ := ∅ |}.


(** ** Reasoning about statements

    [wp c Q E s log]: run from [s] and [log], the statement [c] has defined
    behaviour, and it falls through into [Q] or returns into [E].  [wlp] is
    the same without the promise of defined behaviour. *)
Definition wp_gen {St R A} (U : Prop) (c : Stmt St R A)
    (Q : A → St → list Event → Prop) (E : R → St → list Event → Prop)
    (s : St) (log : list Event) : Prop :=
  match c s log with
  | Next a s' log' => Q a s' log'
  | Ret r s' log' => E r s' log'
  | Undef => U
  end.

Abbreviation wp := (wp_gen False).
Abbreviation wlp := (wp_gen True).

Section wp_rules.
Context {St R : Type} (U : Prop).
Implicit Types (E : R → St → list Event → Prop) (s : St) (log : list Event).

Lemma wp_bind {A B} (c : Stmt St R A) (k : A → Stmt St R B) Q E s log :
  wp_gen U c (λ a, wp_gen U (k a) Q E) E s log → wp_gen U (c ≫= k) Q E s log.
Proof. unfold wp_gen, mbind, Stmt_bind, bind. by destruct (c s log). Qed.

Lemma wp_mret {A} (a : A) (Q : A → St → list Event → Prop) E s log :
  Q a s log → wp_gen U (mret a) Q E s log.
Proof. done. Qed.

Lemma wp_ret {A} (r : R) (Q : A → St → list Event → Prop) E s log :
  E r s log → wp_gen U (ret r) Q E s log.
Proof. done. Qed.

Lemma wp_get (Q : St → St → list Event → Prop) E s log :
  Q s s log → wp_gen U get Q E s log.
Proof. done. Qed.

Lemma wp_modify (f : St → St) (Q : unit → St → list Event → Prop) E s log :
  Q tt (f s) log → wp_gen U (modify f) Q E s log.
Proof. done. Qed.

Lemma wp_emit (e : Event) (Q : unit → St → list Event → Prop) E s log :
  Q tt s (log ++ [e]) → wp_gen U (emit e) Q E s log.
Proof. done. Qed.

Lemma wp_index {A} (v : list A) (i : Z) (a : A)
    (Q : A → St → list Event → Prop) E s log :
  v !! Z.to_nat i = Some a → Q a s log → wp_gen U (index v i) Q E s log.
Proof. unfold wp_gen, index. by intros ->. Qed.

Lemma wp_index_None {A} (v : list A) (i : Z)
    (Q : A → St → list Event → Prop) E s log :
  v !! Z.to_nat i = None → U → wp_gen U (index v i) Q E s log.
Proof. unfold wp_gen, index. by intros ->. Qed.

Lemma wp_from_option {A} (a : A) (Q : A → St → list Event → Prop) E s log :
  Q a s log → wp_gen U (from_option mret undefined (Some a)) Q E s log.
Proof. done. Qed.

Lemma wp_from_option_None {A} (Q : A → St → list Event → Prop) E s log :
  U → wp_gen U (from_option mret undefined None) Q E s log.
Proof. done. Qed.

Lemma wp_invoke {R'} (body : Stmt St R' R') (Q : R' → St → list Event → Prop)
    E s log :
  wp_gen U body Q Q s log → wp_gen U (invoke body) Q E s log.
Proof. unfold wp_gen, invoke. by destruct (body s log). Qed.

Lemma wp_call (body : Stmt St R R) (P : R → St → list Event → Prop) s :
  wp body P P s [] → ∃ r s' log, call body s = Some (r, s', log) ∧ P r s' log.
Proof. unfold wp_gen, call. destruct (body s []); naive_solver. Qed.

Lemma call_wp (body : Stmt St R R) (P : R → St → list Event → Prop) s r s' log :
  wp_gen U body P P s [] → call body s = Some (r, s', log) → P r s' log.
Proof. unfold wp_gen, call. destruct (body s []); naive_solver. Qed.

End wp_rules.

(** One step of symbolic execution.  Under [wp] a subscript leaves the
    out-of-range case to be refuted; under [wlp] that case is closed. *)
Ltac wp_undef := try exact I.

Ltac wp_step :=
  lazymatch goal with
  | |- wp_gen _ (_ ≫= _) _ _ _ _ => apply wp_bind
  | |- wp_gen _ (mret _) _ _ _ _ => apply wp_mret
  | |- wp_gen _ (ret _) _ _ _ _ => apply wp_ret
  | |- wp_gen _ get _ _ _ _ => apply wp_get
  | |- wp_gen _ (modify _) _ _ _ _ => apply wp_modify
  | |- wp_gen _ (emit _) _ _ _ _ => apply wp_emit
  | |- wp_gen _ (invoke _) _ _ _ _ => apply wp_invoke
  | |- wp_gen _ (index ?v ?i) _ _ _ _ =>
      let H := fresh "Hidx" in
      destruct (v !! Z.to_nat i) eqn:H;
      [ eapply wp_index; [exact H |]
      | apply wp_index_None; [exact H | wp_undef] ]
  | |- wp_gen _ (from_option mret undefined ?o) _ _ _ _ =>
      let H := fresh "Hopt" in
      destruct o eqn:H;
      [ apply wp_from_option | apply wp_from_option_None; wp_undef ]
  | |- wp_gen _ (if ?b then _ else _) _ _ _ _ =>
      let H := fresh "Hif" in destruct b eqn:H
  | |- wp_gen _ (match ?o with Some _ => _ | None => _ end) _ _ _ _ =>
      let H := fresh "Hopt" in destruct o eqn:H
  | |- wp_gen _ (let _ := _ in _) _ _ _ _ => cbv zeta
  end.

Ltac wp_run := repeat (wp_step; cbv beta).

(** ** Arithmetic of the fixed-width conversions *)

Lemma to_int32_small (z : Z) : -2 ^ 31 ≤ z < 2 ^ 31 → to_int32 z = z.
Proof.
  intros H. unfold to_int32, UINT32_MODULUS.
  rewrite Z.mod_small; lia.
Qed.

Lemma to_uint32_small (z : Z) : 0 ≤ z < UINT32_MODULUS → to_uint32 z = z.
Proof. intros H. unfold to_uint32. by apply Z.mod_small. Qed.

Lemma to_uint32_range (z : Z) : 0 ≤ to_uint32 z < UINT32_MODULUS.
Proof. unfold to_uint32, UINT32_MODULUS. apply Z.mod_pos_bound. lia. Qed.

Lemma next_slot_range (this : VulkanSwapchain) :
  Z.of_nat (length (backbuffers_ this)) ≠ 0 →
  0 ≤ next_slot this < Z.of_nat (length (backbuffers_ this)).
Proof. intros H. unfold next_slot. apply Z.mod_pos_bound. lia. Qed.

Lemma next_slot_wrap (this : VulkanSwapchain) :
  0 ≤ current_backbuffer_index_ this < UINT32_MODULUS →
  ((current_backbuffer_index_ this + 1) mod SIZE_MODULUS)
    mod Z.of_nat (length (backbuffers_ this)) = next_slot this.
Proof.
  intros H. unfold next_slot. f_equal. apply Z.mod_small.
  unfold UINT32_MODULUS, SIZE_MODULUS in *. lia.
Qed.

(** ** Walking a member function

    [path_facts] turns the conditions met along a path into propositions,
    [bounds] turns subscripts into inequalities, and [leaf] closes what a walk
    leaves at subscripts the class invariant keeps in range and at branches
    that cannot be taken. *)

Ltac path_facts :=
  repeat match goal with
  | H : negb _ = true |- _ => apply negb_true_iff in H
  | H : negb _ = false |- _ => apply negb_false_iff in H
  | H : (_ =? _) = true |- _ => apply Z.eqb_eq in H
  | H : (_ =? _) = false |- _ => apply Z.eqb_neq in H
  | H : (_ <? _) = true |- _ => apply Z.ltb_lt in H
  | H : (_ <? _) = false |- _ => apply Z.ltb_ge in H
  | H : (_ >=? _) = true |- _ => rewrite Z.geb_leb in H; apply Z.leb_le in H
  | H : (_ >=? _) = false |- _ => rewrite Z.geb_leb in H; apply Z.leb_gt in H
  | H : IsValid _ = _ |- _ => unfold IsValid in H
  end.

Ltac bounds :=
  repeat match goal with
  | H : _ !! Z.to_nat _ = None |- _ => apply lookup_ge_None in H
  | H : _ !! Z.to_nat _ = Some _ |- _ =>
      lazymatch goal with
      | _ : (Z.to_nat _ < length _)%nat |- _ => fail
      | _ => pose proof (lookup_lt_Some _ _ _ H)
      end
  end.

Ltac vk_consts :=
  unfold VK_SUCCESS, VK_ERROR_OUT_OF_DATE_KHR, VK_ERROR_SURFACE_LOST_KHR,
    VK_PIPELINE_STAGE_TOP_OF_PIPE_BIT,
    VK_PIPELINE_STAGE_COLOR_ATTACHMENT_OUTPUT_BIT,
    VK_PIPELINE_STAGE_BOTTOM_OF_PIPE_BIT in *.

Ltac leaf vk :=
  rewrite ?next_slot_wrap in * by (unfold UINT32_MODULUS in *; lia);
  path_facts; simpl in *;
  pose proof (to_uint32_range (AcquireNextImageKHR vk).2);
  try match goal with
      | H : Z.of_nat (length (backbuffers_ ?t)) ≠ 0 |- _ =>
          pose proof (next_slot_range t H)
      end;
  try match goal with
      | Hall : Forall is_Some ?l, H : ?l !! _ = Some None |- _ =>
          exfalso; by apply (Forall_lookup_1 _ _ _ _ Hall) in H as [? ?]
      end;
  try done; try congruence;
  try (bounds; first [lia | exfalso; lia]).

(** On a valid chain the class invariant is at hand. *)
Ltac with_invariant Hok :=
  try (match type of Hok with
       | chain_ok ?this =>
           assert (chain_invariant this) as [] by (apply Hok; path_facts; done)
       end).

(** ** The three member functions keep the class invariant *)

Lemma AcquireSurface_preserves (vk : Platform) (this : VulkanSwapchain) :
  chain_ok this →
  ∃ result this' log,
    call (AcquireSurface vk) this = Some (result, this', log)
    ∧ valid_ this' = valid_ this
    ∧ chain_ok this'.
Proof.
  intros Hok.
  apply (wp_call _ (λ _ this' _, valid_ this' = valid_ this ∧ chain_ok this')).
  unfold AcquireSurface, GetNextBackbuffer, InsertImageMemoryBarrier.
  wp_run.
  all: with_invariant Hok; leaf vk.
  all: split; [done|]; intros _; split; simpl; rewrite ?length_alter; try done; try lia.
Qed.

Lemma Submit_preserves (vk : Platform) (this : VulkanSwapchain) :
  chain_ok this →
  ∃ result this' log,
    call (Submit vk) this = Some (result, this', log)
    ∧ valid_ this' = valid_ this
    ∧ chain_ok this'.
Proof.
  intros Hok.
  apply (wp_call _ (λ _ this' _, valid_ this' = valid_ this ∧ chain_ok this')).
  unfold Submit, InsertImageMemoryBarrier.
  wp_run.
  all: with_invariant Hok; leaf vk.
  all: split; [done|]; intros _; split; simpl; rewrite ?length_alter; try done; try lia.
Qed.

Lemma FlushCommands_preserves (vk : Platform) (this : VulkanSwapchain) :
  chain_ok this →
  ∃ result this' log,
    call (FlushCommands vk) this = Some (result, this', log)
    ∧ valid_ this' = valid_ this
    ∧ chain_ok this'.
Proof.
  intros Hok.
  apply (wp_call _ (λ _ this' _, valid_ this' = valid_ this ∧ chain_ok this')).
  unfold FlushCommands, InsertImageMemoryBarrier.
  wp_run.
  all: with_invariant Hok; leaf vk.
  all: split; [done|]; intros _; split; simpl; rewrite ?length_alter; try done; try lia.
Qed.

Lemma sample_chain_invariant : chain_invariant sample_chain.
Proof.
  split; simpl; unfold UINT32_MODULUS; try lia; try done.
  repeat constructor; by eexists.
Qed.

Lemma sample_chain_at_1_invariant : chain_invariant sample_chain_at_1.
Proof.
  split; simpl; unfold UINT32_MODULUS; try lia; try done.
  repeat constructor; by eexists.
Qed.

Lemma sample_chain_2_invariant : chain_invariant sample_chain_2.
Proof.
  split; simpl; unfold UINT32_MODULUS; try lia; try done.
  repeat constructor; by eexists.
Qed.

Lemma sample_chain_ok : chain_ok sample_chain.
Proof. intros _. apply sample_chain_invariant. Qed.

(** ** [GetSize] *)

(** C10: [GetSize] returns the current extent of the capabilities queried at
    construction with width and height each clamped into the interval from
    [minImageExtent] to [maxImageExtent].  The value is handed to
    [SkISize::Make]; for extents that an [int32_t] holds the fields of the
    result are the clamped numbers themselves. *)
Theorem GetSize_clamps (this : VulkanSwapchain) :
  let caps := capabilities_ this in
  let w := Z.max (width (minImageExtent caps))
                 (Z.min (width (currentExtent caps)) (width (maxImageExtent caps))) in
  let h := Z.max (height (minImageExtent caps))
                 (Z.min (height (currentExtent caps)) (height (maxImageExtent caps))) in
  width (minImageExtent caps) ≤ width (maxImageExtent caps) →
  height (minImageExtent caps) ≤ height (maxImageExtent caps) →
  GetSize this = SkISize_Make w h
  ∧ width (minImageExtent caps) ≤ w ≤ width (maxImageExtent caps)
  ∧ height (minImageExtent caps) ≤ h ≤ height (maxImageExtent caps)
  ∧ (0 ≤ width (minImageExtent caps) → width (maxImageExtent caps) < 2 ^ 31 →
     fWidth (GetSize this) = w)
  ∧ (0 ≤ height (minImageExtent caps) → height (maxImageExtent caps) < 2 ^ 31 →
     fHeight (GetSize this) = h).
Proof.
  intros caps w h Hw Hh.
  assert (GetSize this = SkISize_Make w h) as Heq.
  { unfold GetSize. fold caps. subst w h. f_equal.
    - destruct (Z.ltb_spec (width (currentExtent caps)) (width (minImageExtent caps)));
        [lia|].
      destruct (Z.gtb_spec (width (currentExtent caps)) (width (maxImageExtent caps)));
        lia.
    - destruct (Z.ltb_spec (height (currentExtent caps)) (height (minImageExtent caps)));
        [lia|].
      destruct (Z.gtb_spec (height (currentExtent caps)) (height (maxImageExtent caps)));
        lia. }
  split; [exact Heq|]. rewrite Heq. simpl.
  repeat split; try (subst w h; lia).
  - intros. apply to_int32_small. subst w. lia.
  - intros. apply to_int32_small. subst h. lia.
Qed.

Lemma GetSize_clamps_witness :
  GetSize sample_chain = SkISize_Make 800 4096
  ∧ 1 ≤ 800 ≤ 4096 ∧ 1 ≤ 4096 ≤ 4096
  ∧ (0 ≤ 1 → 4096 < 2 ^ 31 → fWidth (GetSize sample_chain) = 800)
  ∧ (0 ≤ 1 → 4096 < 2 ^ 31 → fHeight (GetSize sample_chain) = 4096).
Proof. apply (GetSize_clamps sample_chain); simpl; lia. Defined.

(** ** [AcquireSurface] *)

(** C3: on a valid chain of N >= 1 backbuffers whose next rotation slot holds
    a valid backbuffer, [AcquireSurface] returns and leaves
    [current_backbuffer_index_] at (previous + 1) mod N, whatever the platform
    answers: whichever image index it hands out and whichever later step
    fails. *)
Theorem AcquireSurface_rotates (vk : Platform) (this : VulkanSwapchain)
    (bb : VulkanBackbuffer) :
  chain_invariant this →
  IsValid this = true →
  backbuffers_ this !! Z.to_nat (next_slot this) = Some bb →
  bb_valid bb = true →
  ∃ result this' log,
    call (AcquireSurface vk) this = Some (result, this', log)
    ∧ current_backbuffer_index_ this'
      = (current_backbuffer_index_ this + 1) mod Z.of_nat (length (backbuffers_ this)).
Proof.
  intros Hinv Hvalid Hbb Hbbv.
  destruct Hinv.
  apply (wp_call _ (λ _ this' _, current_backbuffer_index_ this' = next_slot this)).
  unfold AcquireSurface, GetNextBackbuffer, InsertImageMemoryBarrier.
  wp_run; leaf vk.
Qed.

Lemma AcquireSurface_rotates_witness :
  ∃ result this' log,
    call (AcquireSurface platform_out_of_date) sample_chain = Some (result, this', log)
    ∧ current_backbuffer_index_ this' = (0 + 1) mod 3.
Proof.
  exact (AcquireSurface_rotates platform_out_of_date sample_chain
           (sample_backbuffer 1 true) sample_chain_invariant eq_refl eq_refl eq_refl).
Defined.

(** C4: [AcquireSurface] assigns [current_image_index_] and hands out a
    surface only together with [Success].  On a valid chain whose next
    backbuffer is valid and whose fences it skips or waits on and resets with
    success, it asks the platform for the next image, and what the platform
    answers decides: on out-of-date it returns ([ErrorSurfaceOutOfDate],
    null) and the chain has moved in nothing but the backbuffer rotation, so
    [current_image_index_] and [current_pipeline_stage_] are what they were;
    on an answer that is neither success nor out-of-date (surface-lost or
    anything else) it returns ([ErrorSurfaceLost], null), again with nothing
    moved but the rotation; and [Success] is returned only on the answer
    success. *)
Theorem AcquireSurface_success_only (vk : Platform) (this : VulkanSwapchain) :
  chain_ok this →
  let answer := (AcquireNextImageKHR vk).1 in
  let rotated := set_current_backbuffer_index (next_slot this) this in
  ∃ status surface this' log,
    call (AcquireSurface vk) this = Some ((status, surface), this', log)
    ∧ (status ≠ Success →
       surface = None ∧ current_image_index_ this' = current_image_index_ this)
    ∧ (status = Success →
       is_Some surface
       ∧ current_image_index_ this' = to_uint32 (AcquireNextImageKHR vk).2
       ∧ answer = VK_SUCCESS)
    ∧ (acquire_answer log = Some VK_ERROR_OUT_OF_DATE_KHR →
       status = ErrorSurfaceOutOfDate ∧ surface = None ∧ this' = rotated)
    ∧ (∀ r, acquire_answer log = Some r →
         r ≠ VK_SUCCESS → r ≠ VK_ERROR_OUT_OF_DATE_KHR →
         status = ErrorSurfaceLost ∧ surface = None)
    ∧ (∀ bb,
         IsValid this = true →
         backbuffers_ this !! Z.to_nat (next_slot this) = Some bb →
         bb_valid bb = true →
         multi_threading bb = true
         ∨ (WaitFences vk = true ∧ ResetFences vk = true) →
         EvAcquireNextImageKHR (swapchain_ this) UINT64_MAX (usage_semaphore bb)
           VK_NULL_HANDLE answer (to_uint32 (AcquireNextImageKHR vk).2) ∈ log
         ∧ acquire_answer log = Some answer
         ∧ (answer = VK_ERROR_OUT_OF_DATE_KHR →
            status = ErrorSurfaceOutOfDate ∧ surface = None ∧ this' = rotated
            ∧ current_image_index_ this' = current_image_index_ this
            ∧ current_pipeline_stage_ this' = current_pipeline_stage_ this)
         ∧ (answer ≠ VK_SUCCESS → answer ≠ VK_ERROR_OUT_OF_DATE_KHR →
            status = ErrorSurfaceLost ∧ surface = None ∧ this' = rotated)).
Proof.
  intros Hok answer rotated.
  pose (P := λ (res : AcquireResult) (this' : VulkanSwapchain) (log : list Event),
    (res.1 ≠ Success →
       res.2 = None ∧ current_image_index_ this' = current_image_index_ this)
    ∧ (res.1 = Success →
       is_Some res.2
       ∧ current_image_index_ this' = to_uint32 (AcquireNextImageKHR vk).2
       ∧ answer = VK_SUCCESS)
    ∧ (acquire_answer log = Some VK_ERROR_OUT_OF_DATE_KHR →
       res.1 = ErrorSurfaceOutOfDate ∧ res.2 = None ∧ this' = rotated)
    ∧ (∀ r, acquire_answer log = Some r →
         r ≠ VK_SUCCESS → r ≠ VK_ERROR_OUT_OF_DATE_KHR →
         res.1 = ErrorSurfaceLost ∧ res.2 = None)
    ∧ (∀ bb,
         IsValid this = true →
         backbuffers_ this !! Z.to_nat (next_slot this) = Some bb →
         bb_valid bb = true →
         multi_threading bb = true
         ∨ (WaitFences vk = true ∧ ResetFences vk = true) →
         EvAcquireNextImageKHR (swapchain_ this) UINT64_MAX (usage_semaphore bb)
           VK_NULL_HANDLE answer (to_uint32 (AcquireNextImageKHR vk).2) ∈ log
         ∧ acquire_answer log = Some answer
         ∧ (answer = VK_ERROR_OUT_OF_DATE_KHR →
            res.1 = ErrorSurfaceOutOfDate ∧ res.2 = None ∧ this' = rotated
            ∧ current_image_index_ this' = current_image_index_ this
            ∧ current_pipeline_stage_ this' = current_pipeline_stage_ this)
         ∧ (answer ≠ VK_SUCCESS → answer ≠ VK_ERROR_OUT_OF_DATE_KHR →
            res.1 = ErrorSurfaceLost ∧ res.2 = None ∧ this' = rotated))).
  cut (wp (AcquireSurface vk) P P this []).
  { intros ([status surface] & this' & log & Hcall & HP)%wp_call. eauto 10. }
  unfold AcquireSurface, GetNextBackbuffer, InsertImageMemoryBarrier.
  wp_run.
  all: with_invariant Hok; subst P answer rotated; leaf vk.
  all: split; [intros; simplify_eq/=; try done|].
  all: split; [intros; simplify_eq/=; try done; try (by repeat split; try eexists)|].
  all: split; [intros; simplify_eq/=; try done; try (vk_consts; congruence)|].
  all: split; [intros; simplify_eq/=; try done; try (vk_consts; congruence)|].
  all: intros bb' Hv' Hbb' Hbv' Hfences; simplify_eq/=.
  all: try (exfalso; unfold IsValid in *; congruence).
  all: try (exfalso; apply lookup_lt_Some in Hbb'; lia).
  all: try (exfalso; destruct Hfences as [?|[? ?]]; congruence).
  all: split; [rewrite !elem_of_cons; tauto|].
  all: split; [done|].
  all: split; intros; try done; try (exfalso; vk_consts; congruence).
Qed.

Lemma AcquireSurface_success_only_witness :
  chain_ok sample_chain
  ∧ ∃ this' log,
      call (AcquireSurface platform_out_of_date) sample_chain
      = Some ((ErrorSurfaceOutOfDate, None), this', log)
      ∧ this' = set_current_backbuffer_index 1 sample_chain
      ∧ acquire_answer log = Some VK_ERROR_OUT_OF_DATE_KHR
      ∧ current_image_index_ this' = current_image_index_ sample_chain
      ∧ current_pipeline_stage_ this' = current_pipeline_stage_ sample_chain.
Proof.
  split; [exact sample_chain_ok|].
  destruct (AcquireSurface_success_only platform_out_of_date sample_chain
              sample_chain_ok)
    as (status & surface & this' & log & Hcall & _ & _ & _ & _ & Hasked).
  destruct (Hasked (sample_backbuffer 1 true) eq_refl eq_refl eq_refl
              (or_introl eq_refl))
    as (_ & Hanswer & Hout & _).
  destruct (Hout eq_refl) as (-> & -> & Hthis & Himage & Hstage).
  exists this', log. split; [exact Hcall|]. split; [exact Hthis|].
  split; [exact Hanswer|]. split; [exact Himage|exact Hstage].
Defined.

(** C5: when the barrier insertion fails during [AcquireSurface], [Submit] or
    [FlushCommands], [current_pipeline_stage_] is what it was before the call
    and the call reports failure; when it succeeds the stage is the
    destination stage of that barrier; and the stage never changes without a
    barrier that succeeded. *)
Theorem barrier_failure_keeps_stage (vk : Platform) (this : VulkanSwapchain) :
  chain_ok this →
  let stage := current_pipeline_stage_ this in
  (∃ result this' log,
     call (AcquireSurface vk) this = Some (result, this', log)
     ∧ (barrier_answer log = Some false →
        current_pipeline_stage_ this' = stage ∧ result = (ErrorSurfaceLost, None))
     ∧ (barrier_answer log = Some true →
        current_pipeline_stage_ this' = VK_PIPELINE_STAGE_COLOR_ATTACHMENT_OUTPUT_BIT)
     ∧ (current_pipeline_stage_ this' ≠ stage → barrier_answer log = Some true))
  ∧ (∃ result this' log,
     call (Submit vk) this = Some (result, this', log)
     ∧ (barrier_answer log = Some false →
        current_pipeline_stage_ this' = stage ∧ result = false)
     ∧ (barrier_answer log = Some true →
        current_pipeline_stage_ this' = VK_PIPELINE_STAGE_BOTTOM_OF_PIPE_BIT)
     ∧ (current_pipeline_stage_ this' ≠ stage → barrier_answer log = Some true))
  ∧ (∃ result this' log,
     call (FlushCommands vk) this = Some (result, this', log)
     ∧ (barrier_answer log = Some false →
        current_pipeline_stage_ this' = stage ∧ result = false)
     ∧ (barrier_answer log = Some true →
        current_pipeline_stage_ this' = VK_PIPELINE_STAGE_BOTTOM_OF_PIPE_BIT)
     ∧ (current_pipeline_stage_ this' ≠ stage → barrier_answer log = Some true)).
Proof.
  intros Hok stage. split; [|split].
  - apply wp_call.
    unfold AcquireSurface, GetNextBackbuffer, InsertImageMemoryBarrier.
    wp_run.
    all: with_invariant Hok; leaf vk.
    all: repeat split; intros; simplify_eq/=; try done; congruence.
  - apply wp_call.
    unfold Submit, InsertImageMemoryBarrier.
    wp_run.
    all: with_invariant Hok; leaf vk.
    all: repeat split; intros; simplify_eq/=; try done; congruence.
  - apply wp_call.
    unfold FlushCommands, InsertImageMemoryBarrier.
    wp_run.
    all: with_invariant Hok; leaf vk.
    all: repeat split; intros; simplify_eq/=; try done; congruence.
Qed.

Lemma barrier_failure_keeps_stage_witness :
  chain_ok sample_chain
  ∧ ∃ result this' log,
      call (Submit platform_barrier_fails) sample_chain = Some (result, this', log)
      ∧ (barrier_answer log = Some false →
         current_pipeline_stage_ this' = VK_PIPELINE_STAGE_TOP_OF_PIPE_BIT
         ∧ result = false)
      ∧ (barrier_answer log = Some true →
         current_pipeline_stage_ this' = VK_PIPELINE_STAGE_BOTTOM_OF_PIPE_BIT)
      ∧ (current_pipeline_stage_ this' ≠ VK_PIPELINE_STAGE_TOP_OF_PIPE_BIT →
         barrier_answer log = Some true).
Proof.
  split; [exact sample_chain_ok|].
  exact (proj1 (proj2 (barrier_failure_keeps_stage platform_barrier_fails
                         sample_chain sample_chain_ok))).
Defined.

Example barrier_failure_on_sample :
  ∃ this' log,
    call (Submit platform_barrier_fails) sample_chain = Some (false, this', log)
    ∧ barrier_answer log = Some false
    ∧ current_pipeline_stage_ this' = current_pipeline_stage_ sample_chain.
Proof. by eexists _, _. Qed.

(** C7, as amended: a backbuffer flagged as batched goes straight to the
    image acquisition, with no wait on and no reset of its fences; an
    unflagged backbuffer starts with the wait on its fences, and an image is
    only asked for after both the wait and the reset succeeded; and an
    [AcquireSurface] whose usage submit succeeds leaves the flag of that
    backbuffer false.  (A usage submit that fails returns before the flag is
    reset.) *)
Theorem AcquireSurface_batched_flag (vk : Platform) (this : VulkanSwapchain)
    (bb : VulkanBackbuffer) :
  chain_invariant this →
  IsValid this = true →
  backbuffers_ this !! Z.to_nat (next_slot this) = Some bb →
  bb_valid bb = true →
  ∃ result this' log,
    call (AcquireSurface vk) this = Some (result, this', log)
    ∧ (multi_threading bb = true →
       filter (λ e, is_fence_event e = true) log = []
       ∧ is_Some (acquire_answer log))
    ∧ (multi_threading bb = false →
       take 1 log = [EvWaitFences (usage_fence bb) (render_fence bb) (WaitFences vk)]
       ∧ (is_Some (acquire_answer log) →
          take 2 log = [EvWaitFences (usage_fence bb) (render_fence bb) true;
                        EvResetFences (usage_fence bb) (render_fence bb) true]))
    ∧ (submit_answer log = Some true →
       ∃ bb', current_backbuffer this' = Some bb' ∧ multi_threading bb' = false).
Proof.
  intros Hinv Hvalid Hbb Hbbv. destruct Hinv.
  apply wp_call.
  unfold AcquireSurface, GetNextBackbuffer, InsertImageMemoryBarrier.
  wp_run.
  all: leaf vk.
  all: repeat split; intros; simplify_eq/=; try done; try by eexists.
  all: try congruence.
  all: repeat match goal with
              | H : WaitFences _ = _ |- _ => rewrite H; clear H
              | H : ResetFences _ = _ |- _ => rewrite H; clear H
              end; try done.
  all: unfold current_backbuffer; simpl;
    rewrite list_lookup_alter_eq, Hbb; by eexists.
Qed.

Lemma AcquireSurface_batched_flag_witness :
  ∃ result this' log,
    call (AcquireSurface platform_ok) sample_chain = Some (result, this', log)
    ∧ (multi_threading (sample_backbuffer 1 true) = true →
       filter (λ e, is_fence_event e = true) log = []
       ∧ is_Some (acquire_answer log))
    ∧ (multi_threading (sample_backbuffer 1 true) = false →
       take 1 log = [EvWaitFences 31 41 true]
       ∧ (is_Some (acquire_answer log) →
          take 2 log = [EvWaitFences 31 41 true; EvResetFences 31 41 true]))
    ∧ (submit_answer log = Some true →
       ∃ bb', current_backbuffer this' = Some bb' ∧ multi_threading bb' = false).
Proof.
  exact (AcquireSurface_batched_flag platform_ok sample_chain
           (sample_backbuffer 1 true) sample_chain_invariant eq_refl eq_refl eq_refl).
Defined.

(** C7 as stated fails: this acquire reaches the usage submit, the submit
    fails, and the backbuffer it rotated to is still flagged as batched. *)
Lemma batched_flag_survives_failed_submit :
  ∃ this' log bb',
    call (AcquireSurface platform_submit_fails) sample_chain
      = Some ((ErrorSurfaceLost, None), this', log)
    ∧ submit_answer log = Some false
    ∧ current_backbuffer this' = Some bb'
    ∧ multi_threading bb' = true.
Proof. by eexists _, _, _. Qed.

(** The unflagged side of C7 on the sample chain: slot 2 is not flagged, so
    the walk starts with the fence wait and the fence reset. *)
Example unflagged_slot_waits :
  ∃ result this' log,
    call (AcquireSurface platform_ok) sample_chain_at_1 = Some (result, this', log)
    ∧ take 3 log = [EvWaitFences 32 42 true; EvResetFences 32 42 true;
                    EvAcquireNextImageKHR 7 UINT64_MAX 12 VK_NULL_HANDLE VK_SUCCESS 2].
Proof. by eexists _, _, _. Qed.

(** ** The walk over the registry *)

Lemma current_backbuffer_batched (chain : VulkanSwapchain) :
  current_backbuffer (batched chain) = SetMultiThreading <$> current_backbuffer chain.
Proof. unfold current_backbuffer, batched. simpl. apply list_lookup_alter_eq. Qed.

Lemma contribution_batched (chain : VulkanSwapchain) :
  contribution (batched chain) = contribution chain.
Proof.
  unfold contribution. rewrite current_backbuffer_batched.
  by destruct (current_backbuffer chain).
Qed.

Lemma chain_ok_batched (chain : VulkanSwapchain) :
  chain_ok chain → chain_ok (batched chain).
Proof.
  intros Hok Hvalid. destruct (Hok Hvalid).
  split; simpl; rewrite ?length_alter; done.
Qed.

Lemma batched_idempotent (chain : VulkanSwapchain) :
  batched (batched chain) = batched chain.
Proof.
  unfold batched at 1 3. simpl. unfold set_backbuffers. simpl. f_equal.
  rewrite list_alter_alter_eq. apply list_alter_ext; [|done].
  by intros [] _.
Qed.

Lemma insert_batched (m : gmap pointer VulkanSwapchain) ptr chain :
  m !! ptr = Some chain → <[ptr := batched chain]> m = alter batched ptr m.
Proof.
  intros H. apply map_eq. intros q.
  destruct (decide (ptr = q)) as [<-|].
  - by rewrite lookup_insert_eq, lookup_alter_eq, H.
  - by rewrite lookup_insert_ne, lookup_alter_ne.
Qed.

Lemma lookup_alter_contribution (m : gmap pointer VulkanSwapchain) ptr q :
  alter batched ptr m !! q ≫= contribution = m !! q ≫= contribution.
Proof.
  destruct (decide (ptr = q)) as [<-|].
  - rewrite lookup_alter_eq. destruct (m !! ptr); simpl; [|done].
    apply contribution_batched.
  - by rewrite lookup_alter_ne.
Qed.

Lemma contributions_of_alter m ptr entries :
  contributions_of (alter batched ptr m) entries = contributions_of m entries.
Proof.
  unfold contributions_of. induction entries as [|e rest IH]; [done|].
  csimpl. by rewrite lookup_alter_contribution, IH.
Qed.

Lemma length_contributions_of m entries :
  (∀ e, e ∈ entries → is_Some (m !! e.2 ≫= contribution)) →
  length (contributions_of m entries) = length entries.
Proof.
  unfold contributions_of. induction entries as [|e rest IH]; intros Hall; [done|].
  csimpl. destruct (Hall e) as [c ->]; [by apply elem_of_cons; left|]. simpl.
  rewrite IH; [done|]. intros e' He'. apply Hall. by apply elem_of_cons; right.
Qed.

Lemma lookup_mark_all ptrs : ∀ (m : gmap pointer VulkanSwapchain) q,
  mark_all ptrs m !! q
  = if decide (q ∈ ptrs) then batched <$> m !! q else m !! q.
Proof.
  induction ptrs as [|ptr rest IH]; intros m q; [done|].
  unfold mark_all in *. simpl. rewrite IH.
  destruct (decide (ptr = q)) as [<-|Hne].
  - rewrite lookup_alter_eq.
    rewrite (decide_True (P := ptr ∈ ptr :: rest)) by (by apply elem_of_cons; left).
    case_decide; [|done].
    destruct (m !! ptr) as [chain|]; simpl; [|done].
    by rewrite batched_idempotent.
  - rewrite lookup_alter_ne by done.
    destruct (decide (q ∈ rest)).
    + by rewrite decide_True by (by apply elem_of_cons; right).
    + by rewrite decide_False by (by apply not_elem_of_cons).
Qed.

(** When every entry leads to a chain with a current backbuffer, the walk is
    defined and collects the contributions in the order of the entries. *)
Lemma collect_contributions entries : ∀ b p log
    (Q : Batch → Process → list Event → Prop) (E : unit → Process → list Event → Prop),
  (∀ e, e ∈ entries → is_Some (objects p !! e.2 ≫= contribution)) →
  Q (batch_with b entries (contributions_of (objects p) entries))
    (set_objects (mark_all entries.*2 (objects p)) p)
    (log ++ marks (contributions_of (objects p) entries)) →
  wp (collect entries b) Q E p log.
Proof.
  induction entries as [|e rest IH]; intros b p log Q E Hall HQ.
  - apply wp_mret. unfold batch_with, marks in HQ. simpl in HQ.
    rewrite !app_nil_r in HQ. destruct b as [? ? ? ? first], p. simpl in *.
    by destruct first.
  - assert (∀ e', e' ∈ rest →
              is_Some (alter batched e.2 (objects p) !! e'.2 ≫= contribution)) as Hrest.
    { intros e' He'. rewrite lookup_alter_contribution. apply Hall.
      by apply elem_of_cons; right. }
    destruct (Hall e) as [c Hc]; [by apply elem_of_cons; left|].
    cbn [collect]. wp_run.
    + fold (batched v). rewrite (insert_batched _ _ _ Hopt).
      apply IH; [done|]. simpl.
      rewrite contributions_of_alter.
      unfold contributions_of in HQ. csimpl in HQ. rewrite Hopt in HQ. simpl in HQ.
      unfold contribution, current_backbuffer in HQ. rewrite Hidx in HQ. simpl in HQ.
      unfold batch_with, marks in *. simpl in *. rewrite <-!app_assoc. simpl.
      by destruct (tmpSwapChain b).
    + simpl in Hc. unfold contribution, current_backbuffer in Hc.
      by rewrite Hidx in Hc.
    + done.
Qed.

Lemma count_events_app f l1 l2 :
  count_events f (l1 ++ l2) = (count_events f l1 + count_events f l2)%nat.
Proof. unfold count_events. by rewrite filter_app, length_app. Qed.

Lemma count_events_marks f cs :
  (∀ u r b, f (EvMultiThreading u r b) = false) → count_events f (marks cs) = 0%nat.
Proof.
  intros Hf. unfold count_events, marks.
  induction cs as [|c cs IH]; [done|].
  csimpl. rewrite filter_cons_False; [done|]. by rewrite Hf.
Qed.

Lemma registered_contribute (p : Process) :
  registered_ok p →
  ∀ e, e ∈ map_to_list (to_be_present_ p) →
    ∃ chain c, objects p !! e.2 = Some chain ∧ chain_invariant chain
               ∧ contribution chain = Some c.
Proof.
  intros Hreg [thread ptr] He%elem_of_map_to_list.
  destruct (Hreg _ _ He) as (chain & Hchain & _ & Hinv).
  destruct (lookup_lt_is_Some_2 (backbuffers_ chain)
              (Z.to_nat (current_backbuffer_index_ chain))) as [bb Hbb].
  { destruct Hinv. lia. }
  exists chain. eexists. split; [done|]. split; [done|].
  unfold contribution, current_backbuffer. by rewrite Hbb.
Qed.

(** A walk visits every entry once, whatever order the container yields
    them in, and the container may yield them in any order. *)
Lemma iterate_Permutation {A} (picks : list nat) : ∀ entries : list A,
  iterate picks entries ≡ₚ entries.
Proof.
  induction picks as [|k picks IH]; intros entries; [done|]. cbn [iterate].
  destruct (entries !! (k mod length entries)%nat) as [entry|] eqn:Hentry.
  - rewrite IH. symmetry. by apply delete_Permutation.
  - destruct entries as [|entry entries]; [done|].
    apply lookup_ge_None in Hentry.
    pose proof (Nat.mod_upper_bound k (length (entry :: entries))) as Hlt.
    simpl in *. lia.
Qed.

Lemma iterate_any_order {A} (order : list A) : ∀ entries : list A,
  order ≡ₚ entries → ∃ picks, iterate picks entries = order.
Proof.
  induction order as [|entry order IH]; intros entries Hperm.
  - apply Permutation_nil_l in Hperm as ->. by exists [].
  - assert (entry ∈ entries) as [i Hi]%list_elem_of_lookup_1.
    { rewrite <-Hperm. by apply elem_of_cons; left. }
    destruct (IH (delete i entries)) as [picks Hpicks].
    { apply (Permutation_cons_inv (a := entry)).
      rewrite Hperm. by apply delete_Permutation. }
    exists (i :: picks). cbn [iterate].
    rewrite Nat.mod_small by (by eapply lookup_lt_Some).
    by rewrite Hi, Hpicks.
Qed.

Lemma walk_Permutation (vk : Platform) (p : Process) :
  walk vk p ≡ₚ map_to_list (to_be_present_ p).
Proof. apply iterate_Permutation. Qed.

Lemma elem_of_walk (vk : Platform) (p : Process) thread ptr :
  (thread, ptr) ∈ walk vk p ↔ to_be_present_ p !! thread = Some ptr.
Proof. by rewrite walk_Permutation, elem_of_map_to_list. Qed.

Lemma walked_Permutation (vk : Platform) (p : Process) :
  walked vk p ≡ₚ contributions p.
Proof.
  unfold walked, contributions, contributions_of. by rewrite walk_Permutation.
Qed.

Lemma contributions_image_indices (p : Process) entries :
  registered_ok p →
  (∀ e, e ∈ entries → e ∈ map_to_list (to_be_present_ p)) →
  (λ c, to_uint32 (c_image_index c)) <$> contributions_of (objects p) entries
  = c_image_index <$> contributions_of (objects p) entries.
Proof.
  intros Hreg Hsub. apply list_fmap_ext. intros i c Hc%list_elem_of_lookup_2.
  unfold contributions_of in Hc.
  apply list_elem_of_omap in Hc as (e & He%Hsub & Hc).
  destruct (registered_contribute p Hreg e He) as (chain & c' & Hchain & Hinv & Hc').
  rewrite Hchain in Hc. simpl in Hc. unfold contribution in *.
  destruct (current_backbuffer chain); [|done]. simpl in *.
  injection Hc as <-. simpl. apply to_uint32_small. destruct Hinv. lia.
Qed.

(** Whatever the walk meets, what it leaves in the object store, if it
    returns, is the marks on the chains it has walked; it leaves the registry
    alone and only adds to the log. *)
Lemma collect_wlp entries : ∀ b p log
    (Q : Batch → Process → list Event → Prop) (E : unit → Process → list Event → Prop),
  (∀ b' events,
     Q b' (set_objects (mark_all entries.*2 (objects p)) p) (log ++ events)) →
  wlp (collect entries b) Q E p log.
Proof.
  induction entries as [|e rest IH]; intros b p log Q E HQ.
  - apply wp_mret. specialize (HQ b []). rewrite app_nil_r in HQ. by destruct p.
  - cbn [collect]. wp_run.
    fold (batched v). rewrite (insert_batched _ _ _ Hopt).
    apply IH. intros b' events. rewrite <-app_assoc. apply HQ.
Qed.

(** ** [PresentAll] *)

(** The calls of one [PresentAll] over the contributions [cs]. *)
Definition batched_present_log (shared_fence : handle) (vk : Platform)
    (cs : list Contribution) : list Event :=
  [EvRegistry RegEmpty; EvLock; EvRegistry RegIterate]
  ++ marks cs
  ++ [EvQueueSubmit [] [] (c_render_semaphore <$> cs) (c_command_buffer <$> cs)
        shared_fence (QueueSubmit vk)]
  ++ (if QueueSubmit vk then
        [EvQueuePresentKHR (c_render_semaphore <$> cs) (c_swapchain <$> cs)
           (c_image_index <$> cs) (QueuePresentKHR vk)]
        ++ (if QueuePresentKHR vk =? VK_SUCCESS then [EvRegistry RegClear] else [])
      else [])
  ++ [EvUnlock].

Lemma PresentAll_run (shared_fence : handle) (vk : Platform) (p : Process) :
  to_be_present_ p ≠ ∅ →
  registered_ok p →
  ∃ p' log,
    call (PresentAll shared_fence vk) p = Some (tt, p', log)
    ∧ log = batched_present_log shared_fence vk (walked vk p)
    ∧ objects p' = mark_all (walk vk p).*2 (objects p).
Proof.
  intros Hne Hreg.
  assert (∀ e, e ∈ walk vk p → e ∈ map_to_list (to_be_present_ p)) as Hsub.
  { intros e He. by rewrite <-(walk_Permutation vk p). }
  assert (∀ e, e ∈ walk vk p →
            is_Some (objects p !! e.2 ≫= contribution)) as Hall.
  { intros e He%Hsub.
    destruct (registered_contribute p Hreg e He) as (chain & c & -> & _ & Hc).
    by exists c. }
  pose (P := λ (_ : unit) (p' : Process) (log : list Event),
    log = batched_present_log shared_fence vk (walked vk p)
    ∧ objects p' = mark_all (walk vk p).*2 (objects p)).
  cut (wp (PresentAll shared_fence vk) P P p []).
  { intros ([] & p' & log & Hcall & HP)%wp_call. by exists p', log. }
  unfold PresentAll. wp_run.
  { by apply bool_decide_eq_true in Hif. }
  fold (walk vk p). apply collect_contributions; [done|]. fold (walked vk p).
  wp_run.
  all: subst P; unfold batched_present_log, batch_with; path_facts; simpl.
  all: unfold walked; rewrite ?(contributions_image_indices p _ Hreg Hsub).
  all: repeat match goal with
              | H : QueueSubmit _ = _ |- _ => rewrite H; clear H
              end.
  all: try match goal with
           | H : QueuePresentKHR _ = VK_SUCCESS |- _ => rewrite H; clear H
           | H : QueuePresentKHR _ ≠ VK_SUCCESS |- _ =>
               apply Z.eqb_neq in H; rewrite H; clear H
           end.
  all: split; [|done].
  all: simpl; rewrite <-?app_assoc; done.
Qed.

(** C6: with N >= 1 chains registered, one [PresentAll] makes exactly one
    queue submit, with no wait semaphores, signalling the render semaphores
    of all N chains and carrying the shared fence; when that submit succeeds
    it makes exactly one present call, over all N chains and their acquired
    image indices, waiting on the N render semaphores; and every contributing
    backbuffer is marked batched, the marks coming before the submit.  The
    chains come in the order the walk over the registry visits them, which is
    the container's to choose: the same order in the marks, in the vectors of
    the submit and in those of the present, each registered chain once. *)
Theorem PresentAll_batches (shared_fence : handle) (vk : Platform) (p : Process) :
  to_be_present_ p ≠ ∅ →
  registered_ok p →
  let cs := walked vk p in
  ∃ p' log,
    call (PresentAll shared_fence vk) p = Some (tt, p', log)
    ∧ walk vk p ≡ₚ map_to_list (to_be_present_ p)
    ∧ cs ≡ₚ contributions p
    ∧ length cs = size (to_be_present_ p)
    ∧ log = [EvRegistry RegEmpty; EvLock; EvRegistry RegIterate]
            ++ marks cs
            ++ [EvQueueSubmit [] [] (c_render_semaphore <$> cs)
                  (c_command_buffer <$> cs) shared_fence (QueueSubmit vk)]
            ++ (if QueueSubmit vk then
                  [EvQueuePresentKHR (c_render_semaphore <$> cs) (c_swapchain <$> cs)
                     (c_image_index <$> cs) (QueuePresentKHR vk)]
                  ++ (if QueuePresentKHR vk =? VK_SUCCESS
                      then [EvRegistry RegClear] else [])
                else [])
            ++ [EvUnlock]
    ∧ count_events is_submit log = 1%nat
    ∧ count_events is_present log = (if QueueSubmit vk then 1 else 0)%nat
    ∧ (∀ thread ptr, to_be_present_ p !! thread = Some ptr →
         ∃ chain' bb', objects p' !! ptr = Some chain'
                       ∧ current_backbuffer chain' = Some bb'
                       ∧ multi_threading bb' = true).
Proof.
  intros Hne Hreg cs.
  destruct (PresentAll_run shared_fence vk p Hne Hreg) as (p' & log & Hcall & Hlog & Hobj).
  exists p', log. fold cs in Hlog. unfold batched_present_log in Hlog.
  split; [done|]. split; [apply walk_Permutation|].
  split; [apply walked_Permutation|]. split; [|split; [done|]].
  { subst cs. rewrite walked_Permutation. unfold contributions.
    rewrite length_contributions_of, length_map_to_list; [done|].
    intros e He.
    destruct (registered_contribute p Hreg e He) as (chain & c & -> & _ & Hc).
    by exists c. }
  split; [|split].
  - rewrite Hlog, !count_events_app, count_events_marks by done.
    destruct (QueueSubmit vk); [destruct (QueuePresentKHR vk =? VK_SUCCESS)|]; done.
  - rewrite Hlog, !count_events_app, count_events_marks by done.
    destruct (QueueSubmit vk); [destruct (QueuePresentKHR vk =? VK_SUCCESS)|]; done.
  - intros thread ptr Hptr.
    destruct (Hreg _ _ Hptr) as (chain & Hchain & _ & Hinv).
    destruct (lookup_lt_is_Some_2 (backbuffers_ chain)
                (Z.to_nat (current_backbuffer_index_ chain))) as [bb Hbb].
    { destruct Hinv. lia. }
    exists (batched chain), (SetMultiThreading bb).
    rewrite Hobj, lookup_mark_all, Hchain, current_backbuffer_batched.
    unfold current_backbuffer. rewrite Hbb.
    rewrite decide_True; [done|].
    apply list_elem_of_fmap. exists (thread, ptr).
    split; [done|]. by apply elem_of_walk.
Qed.

Lemma sample_process_registered : registered_ok sample_process.
Proof.
  intros thread ptr H. unfold sample_process in *. simpl in *.
  apply lookup_insert_Some in H as [[<- <-]|[_ H]].
  - exists sample_chain. split; [done|]. split; [done|]. apply sample_chain_invariant.
  - apply lookup_singleton_Some in H as [<- <-].
    exists sample_chain_2. split; [done|]. split; [done|].
    apply sample_chain_2_invariant.
Qed.

Lemma sample_registry_nonempty : to_be_present_ sample_process ≠ ∅.
Proof. unfold sample_process. simpl. apply insert_non_empty. Qed.

Lemma PresentAll_batches_witness :
  let vk := platform_other_order in
  let cs := walked vk sample_process in
  ∃ p' log,
    call (PresentAll 99 vk) sample_process = Some (tt, p', log)
    ∧ walk vk sample_process ≡ₚ map_to_list (to_be_present_ sample_process)
    ∧ cs ≡ₚ contributions sample_process
    ∧ length cs = size (to_be_present_ sample_process)
    ∧ log = [EvRegistry RegEmpty; EvLock; EvRegistry RegIterate]
            ++ marks cs
            ++ [EvQueueSubmit [] [] (c_render_semaphore <$> cs)
                  (c_command_buffer <$> cs) 99 (QueueSubmit vk)]
            ++ (if QueueSubmit vk then
                  [EvQueuePresentKHR (c_render_semaphore <$> cs) (c_swapchain <$> cs)
                     (c_image_index <$> cs) (QueuePresentKHR vk)]
                  ++ (if QueuePresentKHR vk =? VK_SUCCESS
                      then [EvRegistry RegClear] else [])
                else [])
            ++ [EvUnlock]
    ∧ count_events is_submit log = 1%nat
    ∧ count_events is_present log = (if QueueSubmit vk then 1 else 0)%nat
    ∧ (∀ thread ptr, to_be_present_ sample_process !! thread = Some ptr →
         ∃ chain' bb', objects p' !! ptr = Some chain'
                       ∧ current_backbuffer chain' = Some bb'
                       ∧ multi_threading bb' = true).
Proof.
  exact (PresentAll_batches 99 platform_other_order sample_process
           sample_registry_nonempty sample_process_registered).
Defined.

(** The batch of the sample process, computed for the two orders a walk over
    its two entries can take. *)
Example PresentAll_on_sample :
  ∃ p',
    call (PresentAll 99 platform_ok) sample_process
    = Some (tt, p',
            [EvRegistry RegEmpty; EvLock; EvRegistry RegIterate;
             EvMultiThreading 30 40 true; EvMultiThreading 31 41 true;
             EvQueueSubmit [] [] [20; 21] [60; 61] 99 true;
             EvQueuePresentKHR [20; 21] [7; 8] [0; 2] VK_SUCCESS;
             EvRegistry RegClear; EvUnlock])
    ∧ to_be_present_ p' = ∅.
Proof. eexists. split; [vm_compute; reflexivity | reflexivity]. Qed.

Example PresentAll_on_sample_other_order :
  ∃ p',
    call (PresentAll 99 platform_other_order) sample_process
    = Some (tt, p',
            [EvRegistry RegEmpty; EvLock; EvRegistry RegIterate;
             EvMultiThreading 31 41 true; EvMultiThreading 30 40 true;
             EvQueueSubmit [] [] [21; 20] [61; 60] 99 true;
             EvQueuePresentKHR [21; 20] [8; 7] [2; 0] VK_SUCCESS;
             EvRegistry RegClear; EvUnlock])
    ∧ to_be_present_ p' = ∅.
Proof. eexists. split; [vm_compute; reflexivity | reflexivity]. Qed.

(** C1, what the code does: the registry is empty after a [PresentAll] whose
    submit and present both succeed; when the submit or the present fails,
    [PresentAll] returns before [to_be_present_.clear()] and the registry is
    what it was. *)
Theorem PresentAll_registry_afterwards (shared_fence : handle) (vk : Platform)
    (p p' : Process) (log : list Event) :
  call (PresentAll shared_fence vk) p = Some (tt, p', log) →
  to_be_present_ p'
  = if QueueSubmit vk && (QueuePresentKHR vk =? VK_SUCCESS) then ∅
    else to_be_present_ p.
Proof.
  apply (call_wp True _ (λ _ p' _, to_be_present_ p' = _)).
  unfold PresentAll. wp_run.
  { apply bool_decide_eq_true in Hif. rewrite Hif. by destruct (_ && _). }
  apply collect_wlp. intros b' events. wp_run.
  all: path_facts; simpl; rewrite ?Hif0, ?Hif1; simpl; try done.
  all: by apply Z.eqb_neq in Hif1 as ->.
Qed.

Lemma PresentAll_registry_afterwards_witness :
  ∃ p' log,
    call (PresentAll 99 platform_submit_fails) sample_process = Some (tt, p', log)
    ∧ to_be_present_ p' = to_be_present_ sample_process.
Proof.
  destruct (PresentAll_run 99 platform_submit_fails sample_process
              sample_registry_nonempty sample_process_registered)
    as (p' & log & Hcall & _).
  exists p', log. split; [exact Hcall|].
  exact (PresentAll_registry_afterwards 99 platform_submit_fails
           sample_process p' log Hcall).
Defined.

(** The failing inputs of C1, computed: two chains are registered, the batched
    submit (or the batched present) fails, and both entries are still
    registered afterwards. *)
Example PresentAll_failed_submit_keeps_registry :
  ∃ p' log,
    call (PresentAll 99 platform_submit_fails) sample_process = Some (tt, p', log)
    ∧ submit_answer log = Some false
    ∧ map_to_list (to_be_present_ p') = [(5%positive, 1%positive); (3%positive, 2%positive)].
Proof. eexists _, _. split; [vm_compute; reflexivity|]. by split; vm_compute. Qed.

Example PresentAll_failed_present_keeps_registry :
  ∃ p' log,
    call (PresentAll 99 platform_present_fails) sample_process = Some (tt, p', log)
    ∧ count_events is_present log = 1%nat
    ∧ map_to_list (to_be_present_ p') = [(5%positive, 1%positive); (3%positive, 2%positive)].
Proof. eexists _, _. split; [vm_compute; reflexivity|]. by split; vm_compute. Qed.

(** C2, what the code does: [AddToPresent] touches the registry between
    taking and releasing [map_mutex_]; [PresentAll] reads
    [to_be_present_.empty()] first and takes the mutex afterwards, so its log
    breaks the lock discipline at its first event, on every call. *)
Theorem PresentAll_reads_registry_unlocked :
  (∀ this this_thread p,
     ∃ p', call (AddToPresent this this_thread) p
           = Some (tt, p', [EvLock; EvRegistry RegInsert; EvUnlock])
           ∧ guarded [EvLock; EvRegistry RegInsert; EvUnlock] = true)
  ∧ (∀ shared_fence vk p r p' log,
       call (PresentAll shared_fence vk) p = Some (r, p', log) →
       ∃ rest, log = EvRegistry RegEmpty :: rest ∧ guarded log = false).
Proof.
  split.
  - intros this this_thread p. by eexists.
  - intros shared_fence vk p r p' log.
    apply (call_wp True _
             (λ _ _ log, ∃ rest, log = EvRegistry RegEmpty :: rest
                                 ∧ guarded log = false)).
    unfold PresentAll. wp_run.
    { eexists. split; reflexivity. }
    apply collect_wlp. intros b' events. wp_run.
    all: simpl; eexists; split; reflexivity.
Qed.

(** Past that first read, the rest of [PresentAll] keeps the discipline: the
    walk, the clearing and both calls lie between the lock and the unlock. *)
Lemma guarded_from_marks held cs rest :
  guarded_from held (marks cs ++ rest) = guarded_from held rest.
Proof. induction cs as [|c cs IH]; [done|]. by csimpl. Qed.

Lemma PresentAll_critical_section (shared_fence : handle) (vk : Platform) (p : Process) :
  to_be_present_ p ≠ ∅ →
  registered_ok p →
  ∃ p' rest,
    call (PresentAll shared_fence vk) p = Some (tt, p', EvRegistry RegEmpty :: rest)
    ∧ guarded rest = true.
Proof.
  intros Hne Hreg.
  destruct (PresentAll_run shared_fence vk p Hne Hreg) as (p' & log & Hcall & -> & _).
  eexists p', _. split; [exact Hcall|].
  unfold guarded. cbn [guarded_from app negb andb].
  rewrite guarded_from_marks.
  destruct (QueueSubmit vk); [destruct (QueuePresentKHR vk =? VK_SUCCESS)|]; done.
Qed.

(** A failing input of C2, computed: on an empty registry [PresentAll] reads
    the registry and returns without ever taking the mutex. *)
Example PresentAll_empty_registry_never_locks :
  call (PresentAll 99 platform_ok) {| objects := ∅; to_be_present_ := ∅ |}
  = Some (tt, {| objects := ∅; to_be_present_ := ∅ |}, [EvRegistry RegEmpty]).
Proof. reflexivity. Qed.

(** ** Construction *)

(** The construction loop either fills the three arrays in step, one entry
    each per image, or returns [false]; it touches neither [valid_] nor the
    cursors, and it logs nothing. *)
Lemma populate_wp (U : Prop) c color_type surface_size : ∀ images n this log k
    (Q : unit → VulkanSwapchain → list Event → Prop)
    (E : bool → VulkanSwapchain → list Event → Prop),
  aligned k this →
  (∀ this', aligned (k + length images) this' → cursors this' = cursors this →
            Q tt this' log) →
  (∀ this', cursors this' = cursors this → E false this' log) →
  wp_gen U (populate c color_type surface_size n images) Q E this log.
Proof.
  induction images as [|image rest IH]; intros n this log k Q E Hal HQ HE.
  - apply wp_mret. apply HQ; [|done]. by rewrite Nat.add_0_r.
  - destruct Hal as (Hb & Hi & Hs & Hsome).
    cbn [populate]. wp_run; try by apply HE.
    apply (IH _ _ _ (S k)).
    + unfold aligned. simpl. rewrite !length_app. simpl.
      repeat split; try lia. apply Forall_app. split; [done|].
      repeat constructor. by eexists.
    + intros this' Hal' Hc. apply HQ; [|done].
      by replace (k + length (image :: rest))%nat with (S k + length rest)%nat
        by (simpl; lia).
    + intros this' Hc. by apply HE.
Qed.

Lemma GetImages_length c : Z.of_nat (length (GetImages c)) < UINT32_MODULUS.
Proof.
  unfold GetImages.
  repeat case_match; simpl; try (unfold UINT32_MODULUS; lia).
  rewrite length_fmap, length_seq.
  pose proof (to_uint32_range (GetSwapchainImagesKHR_count c).2). lia.
Qed.

(** A constructor call that leaves a valid object behind leaves the class
    invariant with it. *)
Lemma construct_valid_invariant (c : Construction) (this : VulkanSwapchain) :
  construct c = Some this → IsValid this = true → chain_invariant this.
Proof.
  unfold construct.
  destruct (call _ _) as [[[[] this'] log]|] eqn:Hcall; [|done].
  intros [= ->]. revert Hcall.
  apply (call_wp True _ (λ _ this _, IsValid this = true → chain_invariant this)).
  unfold VulkanSwapchain_ctor, CreateSwapchainImages. wp_run; try done.
  apply (populate_wp _ _ _ _ _ _ _ _ 0%nat); [done|..].
  - intros this' (Hb & Hi & Hs & Hsome) [= Hv Hbi Hii]. wp_run; [done|].
    intros _. pose proof (GetImages_length c). path_facts. simpl in *.
    split; simpl; rewrite ?Hb, ?Hi, ?Hs, ?Hbi, ?Hii; try done; lia.
  - intros this' [= Hv Hbi Hii]. wp_run; [|done].
    unfold IsValid. simpl in *. congruence.
Qed.

(** ** Calls on the chains of a process *)

Lemma evolves_refl chain : evolves chain chain.
Proof. by split. Qed.

Lemma evolves_trans c1 c2 c3 : evolves c1 c2 → evolves c2 c3 → evolves c1 c3.
Proof. intros [? ?] [? ?]. split; [congruence | auto]. Qed.

Lemma evolves_batched chain : evolves chain (batched chain).
Proof. split; [done | apply chain_ok_batched]. Qed.

Lemma AcquireSurface_evolves vk this r this' log :
  call (AcquireSurface vk) this = Some (r, this', log) → evolves this this'.
Proof.
  intros Hcall. split.
  - revert Hcall. apply (call_wp True _ (λ _ this' _, valid_ this' = valid_ this)).
    unfold AcquireSurface, GetNextBackbuffer, InsertImageMemoryBarrier.
    wp_run; done.
  - intros Hok.
    destruct (AcquireSurface_preserves vk this Hok) as (? & ? & ? & Hcall' & _ & ?).
    by simplify_eq.
Qed.

Lemma Submit_evolves vk this r this' log :
  call (Submit vk) this = Some (r, this', log) → evolves this this'.
Proof.
  intros Hcall. split.
  - revert Hcall. apply (call_wp True _ (λ _ this' _, valid_ this' = valid_ this)).
    unfold Submit, InsertImageMemoryBarrier.
    wp_run; done.
  - intros Hok.
    destruct (Submit_preserves vk this Hok) as (? & ? & ? & Hcall' & _ & ?).
    by simplify_eq.
Qed.

Lemma FlushCommands_evolves vk this r this' log :
  call (FlushCommands vk) this = Some (r, this', log) → evolves this this'.
Proof.
  intros Hcall. split.
  - revert Hcall. apply (call_wp True _ (λ _ this' _, valid_ this' = valid_ this)).
    unfold FlushCommands, InsertImageMemoryBarrier.
    wp_run; done.
  - intros Hok.
    destruct (FlushCommands_preserves vk this Hok) as (? & ? & ? & Hcall' & _ & ?).
    by simplify_eq.
Qed.

Lemma objects_evolve_refl m : objects_evolve m m.
Proof. intros ptr. destruct (m !! ptr); constructor. apply evolves_refl. Qed.

Lemma objects_evolve_trans m1 m2 m3 :
  objects_evolve m1 m2 → objects_evolve m2 m3 → objects_evolve m1 m3.
Proof.
  intros H12 H23 ptr. specialize (H12 ptr). specialize (H23 ptr).
  destruct H12; inversion H23; subst; constructor. by eapply evolves_trans.
Qed.

Lemma objects_evolve_mark_all ptrs m : objects_evolve m (mark_all ptrs m).
Proof.
  intros ptr. rewrite lookup_mark_all.
  destruct (m !! ptr) as [chain|]; case_decide; constructor.
  - apply evolves_batched.
  - apply evolves_refl.
Qed.

Lemma objects_evolve_insert m this chain chain' :
  m !! this = Some chain → evolves chain chain' →
  objects_evolve m (<[this := chain']> m).
Proof.
  intros Hthis Hev ptr.
  destruct (decide (this = ptr)) as [<-|].
  - rewrite lookup_insert_eq, Hthis. by constructor.
  - rewrite lookup_insert_ne by done. apply objects_evolve_refl.
Qed.

Lemma wlp_on_object {R} this (body : Stmt VulkanSwapchain R R)
    (Q E : R → Process → list Event → Prop) p log :
  (∀ chain r chain' events,
     objects p !! this = Some chain →
     call body chain = Some (r, chain', events) →
     E r (set_objects (<[this := chain']> (objects p)) p) (log ++ events)) →
  wlp (on_object this body) Q E p log.
Proof.
  intros HE. unfold wp_gen, on_object.
  destruct (objects p !! this) as [chain|]; [|done].
  destruct (call body chain) as [[[r chain'] events]|] eqn:Hcall; [|done].
  by eapply HE.
Qed.

Lemma perform_evolves op p p' log :
  call (perform op) p = Some (tt, p', log) → objects_evolve (objects p) (objects p').
Proof.
  apply (call_wp True _ (λ _ p' _, objects_evolve (objects p) (objects p'))).
  destruct op; simpl.
  - wp_run. apply wlp_on_object. intros chain r chain' events Hthis Hcall.
    wp_run. eapply objects_evolve_insert; [done|]. by eapply AcquireSurface_evolves.
  - wp_run. apply wlp_on_object. intros chain r chain' events Hthis Hcall.
    wp_run. eapply objects_evolve_insert; [done|]. by eapply Submit_evolves.
  - wp_run. apply wlp_on_object. intros chain r chain' events Hthis Hcall.
    wp_run. eapply objects_evolve_insert; [done|]. by eapply FlushCommands_evolves.
  - unfold AddToPresent. wp_run. apply objects_evolve_refl.
  - unfold PresentAll. wp_run; [apply objects_evolve_refl|].
    apply collect_wlp. intros b' events. wp_run.
    all: apply objects_evolve_mark_all.
Qed.

Lemma run_evolves ops : ∀ p p' log,
  run ops p = Some (p', log) → objects_evolve (objects p) (objects p').
Proof.
  induction ops as [|op rest IH]; intros p p' log Hrun; simpl in Hrun.
  - injection Hrun as <- <-. apply objects_evolve_refl.
  - destruct (call (perform op) p) as [[[[] p1] events]|] eqn:Hop; [|done].
    destruct (run rest p1) as [[p2 events']|] eqn:Hrest; [|done].
    injection Hrun as <- <-.
    eapply objects_evolve_trans; [by eapply perform_evolves | by eapply IH].
Qed.

(** ** Format negotiation *)

Lemma lookup_desired_formats supported infos (i : nat) info :
  infos !! i = Some info →
  desired_formats_of supported infos !! i
  = Some (if supported (color_type_ info) then format_ info else VK_FORMAT_UNDEFINED).
Proof. intros H. unfold desired_formats_of. by rewrite list_lookup_fmap, H. Qed.

(** C8: when the construction gets as far as the format negotiation, the
    list it hands to the device holds, position by position, the desired
    format where the renderer can target its colour type and the undefined
    format where it cannot; that list is what the device is asked with; and
    when the device answers with a negative index the constructor returns
    with [valid_] false, and no sequence of calls makes [IsValid] true
    again. *)
Theorem construction_format_negotiation (c : Construction) (gr : GrContext)
    (caps : VkSurfaceCapabilitiesKHR) :
  device_IsValid c = true →
  surface_IsValid c = true →
  skia_context c = Some gr →
  GetSurfaceCapabilities c = Some caps →
  let desired := desired_formats_of (colorTypeSupportedAsSurface gr) DesiredFormatInfos in
  (∀ (i : nat) info, DesiredFormatInfos !! i = Some info →
     desired !! i
     = Some (if colorTypeSupportedAsSurface gr (color_type_ info)
             then format_ info else VK_FORMAT_UNDEFINED))
  ∧ (∀ this log,
       call (VulkanSwapchain_ctor c) initial_swapchain = Some (tt, this, log) →
       log = [EvChooseSurfaceFormat desired (ChooseSurfaceFormat c desired).1])
  ∧ ((ChooseSurfaceFormat c desired).1 < 0 →
     ∃ this, construct c = Some this
       ∧ IsValid this = false
       ∧ (∀ ptr p ops p' log,
            objects p !! ptr = Some this → run ops p = Some (p', log) →
            ∃ this', objects p' !! ptr = Some this' ∧ IsValid this' = false)).
Proof.
  intros Hdev Hsurf Hskia Hcaps desired. split; [|split].
  - intros i info. apply lookup_desired_formats.
  - intros this log.
    apply (call_wp True _ (λ _ _ log, log = _)).
    unfold VulkanSwapchain_ctor, CreateSwapchainImages.
    rewrite Hdev, Hsurf, Hskia, Hcaps. cbn [negb orb is_null].
    wp_run; simplify_eq; try done.
    apply (populate_wp _ _ _ _ _ _ _ _ 0%nat); [done|..].
    + intros this' _ _. wp_run; done.
    + intros this' _. wp_run; done.
  - intros Hneg.
    cut (wp (VulkanSwapchain_ctor c) (λ _ this _, valid_ this = false)
           (λ _ this _, valid_ this = false) initial_swapchain []).
    { intros ([] & this & log & Hcall & Hvalid)%wp_call.
      exists this. unfold construct. rewrite Hcall. split; [done|]. split; [done|].
      intros ptr p ops p' log' Hptr Hrun.
      pose proof (run_evolves ops p p' log' Hrun ptr) as Hev.
      rewrite Hptr in Hev. inversion Hev as [? this' [Hv _]|]; subst.
      exists this'. split; [done|]. unfold IsValid. congruence. }
    unfold VulkanSwapchain_ctor.
    rewrite Hdev, Hsurf, Hskia, Hcaps. cbn [negb orb is_null].
    wp_run; simplify_eq; try done.
    all: exfalso; path_facts; subst desired; lia.
Qed.

Lemma construction_format_negotiation_witness :
  let desired :=
    desired_formats_of (colorTypeSupportedAsSurface sample_context) DesiredFormatInfos in
  (∀ (i : nat) info, DesiredFormatInfos !! i = Some info →
     desired !! i
     = Some (if colorTypeSupportedAsSurface sample_context (color_type_ info)
             then format_ info else VK_FORMAT_UNDEFINED))
  ∧ (∀ this log,
       call (VulkanSwapchain_ctor construction_without_format) initial_swapchain
         = Some (tt, this, log) →
       log = [EvChooseSurfaceFormat desired
                (ChooseSurfaceFormat construction_without_format desired).1])
  ∧ ((ChooseSurfaceFormat construction_without_format desired).1 < 0 →
     ∃ this, construct construction_without_format = Some this
       ∧ IsValid this = false
       ∧ (∀ ptr p ops p' log,
            objects p !! ptr = Some this → run ops p = Some (p', log) →
            ∃ this', objects p' !! ptr = Some this' ∧ IsValid this' = false)).
Proof.
  exact (construction_format_negotiation construction_without_format
           sample_context sample_capabilities eq_refl eq_refl eq_refl eq_refl).
Defined.

(** The two sample constructions, computed: the half-float candidate is
    replaced by the undefined format before the device is asked; without a
    format the object stays invalid, with one it is a valid three-slot chain
    whose size is the clamped extent. *)
Example construction_without_format_run :
  ∃ this,
    call (VulkanSwapchain_ctor construction_without_format) initial_swapchain
    = Some (tt, this,
            [EvChooseSurfaceFormat
               [VK_FORMAT_R8G8B8A8_SRGB; VK_FORMAT_B8G8R8A8_SRGB; VK_FORMAT_UNDEFINED;
                VK_FORMAT_R8G8B8A8_UNORM; VK_FORMAT_B8G8R8A8_UNORM] (-1)])
    ∧ IsValid this = false.
Proof. by eexists. Qed.

Example construction_with_first_format_run :
  ∃ this,
    construct construction_with_first_format = Some this
    ∧ IsValid this = true
    ∧ length (backbuffers_ this) = 3%nat
    ∧ length (images_ this) = 3%nat
    ∧ length (surfaces_ this) = 3%nat
    ∧ GetSize this = {| fWidth := 800; fHeight := 4096 |}.
Proof. by eexists. Qed.

(** ** The class invariant *)

(** C9: a valid object comes out of the constructor with its three arrays of
    one nonzero length N and both cursors below N; on a valid chain with that
    invariant [AcquireSurface], [Submit] and [FlushCommands] are defined (no
    subscript leaves its array) and hand the invariant on; and over any
    sequence of public calls on a process, [AddToPresent] and [PresentAll]
    included, every chain in the object store keeps it. *)
Theorem class_invariant :
  (∀ c this, construct c = Some this → IsValid this = true → chain_invariant this)
  ∧ (∀ vk this, IsValid this = true → chain_invariant this →
       (∃ r this' log, call (AcquireSurface vk) this = Some (r, this', log)
                       ∧ IsValid this' = true ∧ chain_invariant this')
       ∧ (∃ r this' log, call (Submit vk) this = Some (r, this', log)
                         ∧ IsValid this' = true ∧ chain_invariant this')
       ∧ (∃ r this' log, call (FlushCommands vk) this = Some (r, this', log)
                         ∧ IsValid this' = true ∧ chain_invariant this'))
  ∧ (∀ ops p p' log,
       process_ok p → run ops p = Some (p', log) → process_ok p').
Proof.
  split; [|split].
  - apply construct_valid_invariant.
  - intros vk this Hvalid Hinv.
    assert (chain_ok this) as Hok by (by intros _).
    split; [|split].
    + destruct (AcquireSurface_preserves vk this Hok) as (r & this' & log & ? & Hv & Hok').
      exists r, this', log. unfold IsValid in *.
      split; [done|]. split; [congruence|]. apply Hok'. unfold IsValid. congruence.
    + destruct (Submit_preserves vk this Hok) as (r & this' & log & ? & Hv & Hok').
      exists r, this', log. unfold IsValid in *.
      split; [done|]. split; [congruence|]. apply Hok'. unfold IsValid. congruence.
    + destruct (FlushCommands_preserves vk this Hok) as (r & this' & log & ? & Hv & Hok').
      exists r, this', log. unfold IsValid in *.
      split; [done|]. split; [congruence|]. apply Hok'. unfold IsValid. congruence.
  - intros ops p p' log Hok Hrun ptr chain' Hchain'.
    pose proof (run_evolves ops p p' log Hrun ptr) as Hev.
    rewrite Hchain' in Hev. inversion Hev as [chain ? [_ Hstep] Hchain|]; subst.
    apply Hstep. by eapply Hok.
Qed.

(** ** The member functions, path by path *)

(** [use_answers] rewrites with the platform answers met along a path;
    [in_log] takes apart the membership of an event in a log that is known. *)
Ltac use_answers :=
  repeat match goal with
  | H : WaitFences _ = _ |- _ => rewrite !H in *; clear H
  | H : ResetFences _ = _ |- _ => rewrite !H in *; clear H
  | H : Begin _ = _ |- _ => rewrite !H in *; clear H
  | H : InsertPipelineBarrier _ = _ |- _ => rewrite !H in *; clear H
  | H : End_ _ = _ |- _ => rewrite !H in *; clear H
  | H : QueueSubmit _ = _ |- _ => rewrite !H in *; clear H
  | H : backendRT_isValid _ = _ |- _ => rewrite !H in *; clear H
  | H : QueuePresentKHR _ = VK_SUCCESS |- _ => rewrite !H in *; clear H
  end.

Ltac in_log :=
  repeat match goal with
  | H : _ ∈ _ :: _ |- _ => apply elem_of_cons in H as [H|H]; [simplify_eq|]
  | H : _ ∈ [] |- _ => by apply elem_of_nil in H
  end.

(** X1: [GetNextBackbuffer] makes no external call.  It returns null, and
    leaves the object as it was, exactly when there is no backbuffer at all or
    the one in the next rotation slot is not valid; otherwise it returns that
    slot, (current + 1) mod N, holding a valid backbuffer, and the only thing
    it changes is [current_backbuffer_index_], which becomes that slot. *)
Theorem GetNextBackbuffer_advances_iff_found (this : VulkanSwapchain) :
  0 ≤ current_backbuffer_index_ this < UINT32_MODULUS →
  ∃ result this' log,
    call GetNextBackbuffer this = Some (result, this', log)
    ∧ log = []
    ∧ (result = None →
       this' = this
       ∧ (backbuffers_ this = []
          ∨ ∃ bb, backbuffers_ this !! Z.to_nat (next_slot this) = Some bb
                  ∧ bb_valid bb = false))
    ∧ (∀ i, result = Some i →
       i = next_slot this
       ∧ this' = set_current_backbuffer_index (next_slot this) this
       ∧ ∃ bb, backbuffers_ this !! Z.to_nat i = Some bb ∧ bb_valid bb = true).
Proof.
  intros Hcur. apply wp_call. unfold GetNextBackbuffer. wp_run.
  all: rewrite ?next_slot_wrap in * by done; path_facts.
  - split; [done|]. split; [|done]. intros _. split; [done|]. left.
    destruct (backbuffers_ this); [done | simpl in *; lia].
  - split; [done|]. split; [|done]. intros _. split; [done|]. right. by exists v.
  - split; [done|]. split; [done|]. intros i [= <-]. repeat split. by exists v.
  - pose proof (next_slot_range this Hif). apply lookup_ge_None in Hidx. lia.
Qed.

Lemma GetNextBackbuffer_advances_iff_found_witness :
  ∃ result this' log,
    call GetNextBackbuffer sample_chain = Some (result, this', log)
    ∧ log = []
    ∧ (result = None →
       this' = sample_chain
       ∧ (backbuffers_ sample_chain = []
          ∨ ∃ bb, backbuffers_ sample_chain !! Z.to_nat (next_slot sample_chain)
                  = Some bb
                  ∧ bb_valid bb = false))
    ∧ (∀ i, result = Some i →
       i = next_slot sample_chain
       ∧ this' = set_current_backbuffer_index (next_slot sample_chain) sample_chain
       ∧ ∃ bb, backbuffers_ sample_chain !! Z.to_nat i = Some bb
               ∧ bb_valid bb = true).
Proof.
  apply (GetNextBackbuffer_advances_iff_found sample_chain).
  simpl. unfold UINT32_MODULUS. lia.
Defined.

(** X2: on an object that is not valid, [AcquireSurface], [Submit] and
    [FlushCommands] return their error value at once: no call reaches the
    device or Skia, and no member changes, the rotation cursor included. *)
Theorem invalid_chain_is_inert (vk : Platform) (this : VulkanSwapchain) :
  IsValid this = false →
  call (AcquireSurface vk) this = Some ((ErrorSurfaceLost, None), this, [])
  ∧ call (Submit vk) this = Some (false, this, [])
  ∧ call (FlushCommands vk) this = Some (false, this, []).
Proof.
  intros Hinv. unfold call, AcquireSurface, Submit, FlushCommands.
  unfold mbind, Stmt_bind, bind, get. by rewrite Hinv.
Qed.

Lemma invalid_chain_is_inert_witness :
  IsValid initial_swapchain = false
  ∧ call (AcquireSurface platform_ok) initial_swapchain
    = Some ((ErrorSurfaceLost, None), initial_swapchain, [])
  ∧ call (Submit platform_ok) initial_swapchain = Some (false, initial_swapchain, [])
  ∧ call (FlushCommands platform_ok) initial_swapchain
    = Some (false, initial_swapchain, []).
Proof.
  split; [reflexivity|].
  exact (invalid_chain_is_inert platform_ok initial_swapchain eq_refl).
Defined.

(** X3: on a valid chain, [AcquireSurface] reports [Success] exactly when
    every step succeeded: the next backbuffer is valid, its fences were waited
    on and reset unless it is flagged as batched, the platform handed out an
    image index that names a valid image, the command buffer was begun, the
    barrier recorded, the recording ended, the usage submit accepted, and the
    surface's backend render target is valid.  A success returns the surface
    at the acquired index, leaves both cursors and the pipeline stage at their
    new values, and has submitted the usage command buffer waiting on the
    usage semaphore and signalling the usage fence. *)
Theorem AcquireSurface_succeeds_iff (vk : Platform) (this : VulkanSwapchain)
    (bb : VulkanBackbuffer) :
  chain_invariant this →
  IsValid this = true →
  backbuffers_ this !! Z.to_nat (next_slot this) = Some bb →
  let index := to_uint32 (AcquireNextImageKHR vk).2 in
  ∃ result this' log,
    call (AcquireSurface vk) this = Some (result, this', log)
    ∧ (result.1 = Success ↔
       bb_valid bb = true
       ∧ (multi_threading bb = true
          ∨ (WaitFences vk = true ∧ ResetFences vk = true))
       ∧ (AcquireNextImageKHR vk).1 = VK_SUCCESS
       ∧ (∃ image, images_ this !! Z.to_nat index = Some image
                   ∧ image_valid image = true)
       ∧ Begin vk = true ∧ InsertPipelineBarrier vk = true ∧ End_ vk = true
       ∧ QueueSubmit vk = true ∧ backendRT_isValid vk = true)
    ∧ (result.1 = Success →
       surfaces_ this !! Z.to_nat index = Some result.2
       ∧ is_Some result.2
       ∧ current_image_index_ this' = index
       ∧ current_backbuffer_index_ this' = next_slot this
       ∧ current_pipeline_stage_ this' = VK_PIPELINE_STAGE_COLOR_ATTACHMENT_OUTPUT_BIT
       ∧ EvQueueSubmit [VK_PIPELINE_STAGE_COLOR_ATTACHMENT_OUTPUT_BIT]
           [usage_semaphore bb] [] [usage_command_buffer bb] (usage_fence bb) true
         ∈ log).
Proof.
  intros [] Hvalid Hbb index. subst index.
  apply wp_call.
  unfold AcquireSurface, GetNextBackbuffer, InsertImageMemoryBarrier. wp_run.
  all: leaf vk.
  all: simplify_eq.
  all: split; [split; [first [done | intros _] | intros Hall] | first [done | intros _]].
  all: try (exfalso;
            destruct Hall as (? & Hfences & ? & (image & ? & ?) & ? & ? & ? & ? & ?);
            simplify_eq; try congruence;
            first [ destruct Hfences as [?|[? ?]]; congruence
                  | bounds; lia ]).
  all: try done.
  all: try (repeat split; eauto; fail).
  all: use_answers; repeat split; try done; try (by eexists).
  all: rewrite !elem_of_cons; tauto.
Qed.

Lemma AcquireSurface_succeeds_iff_witness :
  let index := to_uint32 (AcquireNextImageKHR platform_ok).2 in
  let bb := sample_backbuffer 1 true in
  ∃ result this' log,
    call (AcquireSurface platform_ok) sample_chain = Some (result, this', log)
    ∧ (result.1 = Success ↔
       bb_valid bb = true
       ∧ (multi_threading bb = true
          ∨ (WaitFences platform_ok = true ∧ ResetFences platform_ok = true))
       ∧ (AcquireNextImageKHR platform_ok).1 = VK_SUCCESS
       ∧ (∃ image, images_ sample_chain !! Z.to_nat index = Some image
                   ∧ image_valid image = true)
       ∧ Begin platform_ok = true ∧ InsertPipelineBarrier platform_ok = true
       ∧ End_ platform_ok = true
       ∧ QueueSubmit platform_ok = true ∧ backendRT_isValid platform_ok = true)
    ∧ (result.1 = Success →
       surfaces_ sample_chain !! Z.to_nat index = Some result.2
       ∧ is_Some result.2
       ∧ current_image_index_ this' = index
       ∧ current_backbuffer_index_ this' = next_slot sample_chain
       ∧ current_pipeline_stage_ this' = VK_PIPELINE_STAGE_COLOR_ATTACHMENT_OUTPUT_BIT
       ∧ EvQueueSubmit [VK_PIPELINE_STAGE_COLOR_ATTACHMENT_OUTPUT_BIT]
           [usage_semaphore bb] [] [usage_command_buffer bb] (usage_fence bb) true
         ∈ log).
Proof.
  exact (AcquireSurface_succeeds_iff platform_ok sample_chain
           (sample_backbuffer 1 true) sample_chain_invariant eq_refl eq_refl).
Defined.

(** X4: [AcquireSurface] begins recording only after the platform has
    answered the image acquisition with success and with an index that names
    a valid image, and it submits only what it has recorded to the end.  When
    the platform reports success with an index outside [images_], the call
    fails with [ErrorSurfaceLost] and neither [current_image_index_] nor any
    image has changed. *)
Theorem AcquireSurface_records_only_for_a_valid_image (vk : Platform)
    (this : VulkanSwapchain) :
  chain_ok this →
  let index := to_uint32 (AcquireNextImageKHR vk).2 in
  ∃ result this' log,
    call (AcquireSurface vk) this = Some (result, this', log)
    ∧ (∀ command_buffer ok, EvBegin command_buffer ok ∈ log →
         (AcquireNextImageKHR vk).1 = VK_SUCCESS
         ∧ ∃ image, images_ this !! Z.to_nat index = Some image
                    ∧ image_valid image = true)
    ∧ (is_Some (submit_answer log) →
         Begin vk = true ∧ InsertPipelineBarrier vk = true ∧ End_ vk = true)
    ∧ ((AcquireNextImageKHR vk).1 = VK_SUCCESS →
       Z.of_nat (length (images_ this)) ≤ index →
       result = (ErrorSurfaceLost, None)
       ∧ current_image_index_ this' = current_image_index_ this
       ∧ images_ this' = images_ this).
Proof.
  intros Hok index. subst index. apply wp_call.
  unfold AcquireSurface, GetNextBackbuffer, InsertImageMemoryBarrier. wp_run.
  all: with_invariant Hok; leaf vk.
  all: split; [intros; in_log; eauto | split; [intros [? ?]; by simplify_eq/= |]].
  all: intros; try done; try (vk_consts; congruence); try lia.
Qed.

(** A platform that reports success and hands out image index 7. *)
Lemma AcquireSurface_records_only_for_a_valid_image_witness :
  let vk := {| WaitFences := true; ResetFences := true;
               AcquireNextImageKHR := (VK_SUCCESS, 7);
               Begin := true; InsertPipelineBarrier := true; End_ := true;
               QueueSubmit := true; backendRT_isValid := true;
               QueuePresentKHR := VK_SUCCESS; iteration_order := [] |} in
  let index := to_uint32 (AcquireNextImageKHR vk).2 in
  ∃ result this' log,
    call (AcquireSurface vk) sample_chain = Some (result, this', log)
    ∧ (∀ command_buffer ok, EvBegin command_buffer ok ∈ log →
         (AcquireNextImageKHR vk).1 = VK_SUCCESS
         ∧ ∃ image, images_ sample_chain !! Z.to_nat index = Some image
                    ∧ image_valid image = true)
    ∧ (is_Some (submit_answer log) →
         Begin vk = true ∧ InsertPipelineBarrier vk = true ∧ End_ vk = true)
    ∧ ((AcquireNextImageKHR vk).1 = VK_SUCCESS →
       Z.of_nat (length (images_ sample_chain)) ≤ index →
       result = (ErrorSurfaceLost, None)
       ∧ current_image_index_ this' = current_image_index_ sample_chain
       ∧ images_ this' = images_ sample_chain).
Proof.
  exact (AcquireSurface_records_only_for_a_valid_image _ sample_chain sample_chain_ok).
Defined.

(** X5: on a valid chain, [Submit] returns true exactly when the recording,
    the barrier, the render submit and the present all succeeded, and then
    its calls are, in this order: flush the acquired surface; begin, barrier
    to present layout, and end on the render command buffer of the current
    backbuffer; one submit of that command buffer with no wait semaphore,
    signalling the render semaphore and the render fence; the reset of the
    batched flag; one present of the image at [current_image_index_] on this
    chain's handle, waiting on the render semaphore.  Whenever a present is
    made at all, the submit before it succeeded. *)
Theorem Submit_presents_what_was_acquired (vk : Platform) (this : VulkanSwapchain)
    (surface : SkSurface) (image : VulkanImage) (bb : VulkanBackbuffer) :
  IsValid this = true →
  chain_invariant this →
  surfaces_ this !! Z.to_nat (current_image_index_ this) = Some (Some surface) →
  images_ this !! Z.to_nat (current_image_index_ this) = Some image →
  current_backbuffer this = Some bb →
  ∃ result this' log,
    call (Submit vk) this = Some (result, this', log)
    ∧ (result = true ↔
       Begin vk = true ∧ InsertPipelineBarrier vk = true ∧ End_ vk = true
       ∧ QueueSubmit vk = true ∧ QueuePresentKHR vk = VK_SUCCESS)
    ∧ (result = true →
       log = [EvFlush surface;
              EvBegin (render_command_buffer bb) true;
              EvInsertImageMemoryBarrier (image_handle image)
                (render_command_buffer bb) (current_pipeline_stage_ this)
                VK_PIPELINE_STAGE_BOTTOM_OF_PIPE_BIT VK_ACCESS_MEMORY_READ_BIT
                VK_IMAGE_LAYOUT_PRESENT_SRC_KHR true;
              EvEnd (render_command_buffer bb) true;
              EvQueueSubmit [] [] [render_semaphore bb] [render_command_buffer bb]
                (render_fence bb) true;
              EvMultiThreading (usage_fence bb) (render_fence bb) false;
              EvQueuePresentKHR [render_semaphore bb] [swapchain_ this]
                [current_image_index_ this] VK_SUCCESS])
    ∧ (∀ semaphores chains indices answer,
         EvQueuePresentKHR semaphores chains indices answer ∈ log →
         submit_answer log = Some true
         ∧ semaphores = [render_semaphore bb]
         ∧ chains = [swapchain_ this]
         ∧ indices = [current_image_index_ this]).
Proof.
  intros Hvalid [] Hs Hi Hb. unfold current_backbuffer in Hb.
  apply wp_call.
  unfold Submit, InsertImageMemoryBarrier. wp_run.
  all: path_facts; simplify_eq/=.
  all: rewrite ?(to_uint32_small (current_image_index_ this))
    by (unfold UINT32_MODULUS in *; lia).
  all: split; [split; [first [done | by intros _]
                          | intros (? & ? & ? & ? & ?); congruence] |].
  all: split; [first [done | intros _; by use_answers] |].
  all: intros; in_log.
  all: by use_answers.
Qed.

Lemma Submit_presents_what_was_acquired_witness :
  let vk := platform_ok in
  let bb := sample_backbuffer 0 false in
  ∃ result this' log,
    call (Submit vk) sample_chain = Some (result, this', log)
    ∧ (result = true ↔
       Begin vk = true ∧ InsertPipelineBarrier vk = true ∧ End_ vk = true
       ∧ QueueSubmit vk = true ∧ QueuePresentKHR vk = VK_SUCCESS)
    ∧ (result = true →
       log = [EvFlush 80;
              EvBegin (render_command_buffer bb) true;
              EvInsertImageMemoryBarrier (image_handle (sample_image 0))
                (render_command_buffer bb) (current_pipeline_stage_ sample_chain)
                VK_PIPELINE_STAGE_BOTTOM_OF_PIPE_BIT VK_ACCESS_MEMORY_READ_BIT
                VK_IMAGE_LAYOUT_PRESENT_SRC_KHR true;
              EvEnd (render_command_buffer bb) true;
              EvQueueSubmit [] [] [render_semaphore bb] [render_command_buffer bb]
                (render_fence bb) true;
              EvMultiThreading (usage_fence bb) (render_fence bb) false;
              EvQueuePresentKHR [render_semaphore bb] [swapchain_ sample_chain]
                [current_image_index_ sample_chain] VK_SUCCESS])
    ∧ (∀ semaphores chains indices answer,
         EvQueuePresentKHR semaphores chains indices answer ∈ log →
         submit_answer log = Some true
         ∧ semaphores = [render_semaphore bb]
         ∧ chains = [swapchain_ sample_chain]
         ∧ indices = [current_image_index_ sample_chain]).
Proof.
  exact (Submit_presents_what_was_acquired platform_ok sample_chain 80
           (sample_image 0) (sample_backbuffer 0 false)
           eq_refl sample_chain_invariant eq_refl eq_refl eq_refl).
Defined.

(** X6: [FlushCommands] is the recording half of [Submit].  It never submits
    and never presents, and it leaves every backbuffer as it was.  Under the
    same platform answers, where [FlushCommands] fails [Submit] fails with
    the same calls and the same object, and where it succeeds the calls of
    [Submit] start with those of [FlushCommands] and the two leave the same
    images and the same pipeline stage. *)
Theorem FlushCommands_is_the_recording_half_of_Submit (vk : Platform)
    (this : VulkanSwapchain) :
  chain_ok this →
  ∃ flushed this_f log_f,
    call (FlushCommands vk) this = Some (flushed, this_f, log_f)
    ∧ count_events is_submit log_f = 0%nat
    ∧ count_events is_present log_f = 0%nat
    ∧ backbuffers_ this_f = backbuffers_ this
    ∧ ∃ submitted this_s log_s,
        call (Submit vk) this = Some (submitted, this_s, log_s)
        ∧ (flushed = false →
           submitted = false ∧ this_s = this_f ∧ log_s = log_f)
        ∧ (flushed = true →
           (∃ rest, log_s = log_f ++ rest)
           ∧ images_ this_s = images_ this_f
           ∧ current_pipeline_stage_ this_s = current_pipeline_stage_ this_f).
Proof.
  intros Hok. apply wp_call.
  unfold FlushCommands, InsertImageMemoryBarrier. wp_run.
  all: with_invariant Hok; leaf vk.
  all: do 3 (split; [done|]).
  all: apply wp_call; unfold Submit, InsertImageMemoryBarrier; wp_run.
  all: path_facts; simplify_eq/=; try congruence.
  all: try (split; [done|]); try (split; [|done]); try done.
  all: by eexists.
Qed.

Lemma FlushCommands_is_the_recording_half_of_Submit_witness :
  ∃ flushed this_f log_f,
    call (FlushCommands platform_barrier_fails) sample_chain
    = Some (flushed, this_f, log_f)
    ∧ count_events is_submit log_f = 0%nat
    ∧ count_events is_present log_f = 0%nat
    ∧ backbuffers_ this_f = backbuffers_ sample_chain
    ∧ ∃ submitted this_s log_s,
        call (Submit platform_barrier_fails) sample_chain
        = Some (submitted, this_s, log_s)
        ∧ (flushed = false →
           submitted = false ∧ this_s = this_f ∧ log_s = log_f)
        ∧ (flushed = true →
           (∃ rest, log_s = log_f ++ rest)
           ∧ images_ this_s = images_ this_f
           ∧ current_pipeline_stage_ this_s = current_pipeline_stage_ this_f).
Proof.
  exact (FlushCommands_is_the_recording_half_of_Submit platform_barrier_fails
           sample_chain sample_chain_ok).
Defined.

(** ** What no call changes *)

Lemma fmap_alter_absorbed {A B} (g : A → B) (f : A → A) (i : nat) (l : list A) :
  (∀ x, g (f x) = g x) → g <$> alter f i l = g <$> l.
Proof.
  intros Hgf. revert i. induction l as [|a l IH]; intros [|i]; csimpl; [done..| |].
  - by rewrite Hgf.
  - by rewrite IH.
Qed.

Lemma erase_tracking_barrier ok access lay image :
  erase_tracking (barrier_applied ok access lay image) = erase_tracking image.
Proof. by destruct ok. Qed.

Ltac fixed :=
  unfold fixed_part; simpl;
  rewrite ?(fmap_alter_absorbed UnsetMultiThreading) by done;
  rewrite ?(fmap_alter_absorbed erase_tracking) by apply erase_tracking_barrier;
  try done.

Lemma AcquireSurface_fixed vk this r this' log :
  call (AcquireSurface vk) this = Some (r, this', log) →
  fixed_part this' = fixed_part this.
Proof.
  apply (call_wp True _ (λ _ this' _, fixed_part this' = fixed_part this)).
  unfold AcquireSurface, GetNextBackbuffer, InsertImageMemoryBarrier.
  wp_run; fixed.
Qed.

Lemma Submit_fixed vk this r this' log :
  call (Submit vk) this = Some (r, this', log) →
  fixed_part this' = fixed_part this.
Proof.
  apply (call_wp True _ (λ _ this' _, fixed_part this' = fixed_part this)).
  unfold Submit, InsertImageMemoryBarrier.
  wp_run; fixed.
Qed.

Lemma FlushCommands_fixed vk this r this' log :
  call (FlushCommands vk) this = Some (r, this', log) →
  fixed_part this' = fixed_part this.
Proof.
  apply (call_wp True _ (λ _ this' _, fixed_part this' = fixed_part this)).
  unfold FlushCommands, InsertImageMemoryBarrier.
  wp_run; fixed.
Qed.

Lemma batched_fixed chain : fixed_part (batched chain) = fixed_part chain.
Proof. unfold batched. fixed. Qed.

Lemma perform_fixed op p p' log :
  call (perform op) p = Some (tt, p', log) →
  ∀ ptr, fixed_part <$> objects p' !! ptr = fixed_part <$> objects p !! ptr.
Proof.
  apply (call_wp True _
           (λ _ p' _, ∀ ptr, fixed_part <$> objects p' !! ptr
                             = fixed_part <$> objects p !! ptr)).
  assert (∀ this chain chain',
            objects p !! this = Some chain →
            fixed_part chain' = fixed_part chain →
            ∀ ptr, fixed_part <$> <[this := chain']> (objects p) !! ptr
                   = fixed_part <$> objects p !! ptr) as Hstore.
  { intros this chain chain' Hthis Heq ptr.
    destruct (decide (this = ptr)) as [<-|].
    - by rewrite lookup_insert_eq, Hthis; simpl; rewrite Heq.
    - by rewrite lookup_insert_ne. }
  assert (∀ ptrs ptr, fixed_part <$> mark_all ptrs (objects p) !! ptr
                      = fixed_part <$> objects p !! ptr) as Hmarks.
  { intros ptrs ptr. rewrite lookup_mark_all. case_decide; [|done].
    destruct (objects p !! ptr); simpl; [|done]. by rewrite batched_fixed. }
  destruct op; simpl.
  - wp_run. apply wlp_on_object. intros chain r chain' events Hthis Hcall.
    wp_run. eapply Hstore; [done|]. by eapply AcquireSurface_fixed.
  - wp_run. apply wlp_on_object. intros chain r chain' events Hthis Hcall.
    wp_run. eapply Hstore; [done|]. by eapply Submit_fixed.
  - wp_run. apply wlp_on_object. intros chain r chain' events Hthis Hcall.
    wp_run. eapply Hstore; [done|]. by eapply FlushCommands_fixed.
  - unfold AddToPresent. wp_run. done.
  - unfold PresentAll. wp_run; [done|].
    apply collect_wlp. intros b' events. wp_run.
    all: apply Hmarks.
Qed.

Lemma run_fixed ops : ∀ p p' log,
  run ops p = Some (p', log) →
  ∀ ptr, fixed_part <$> objects p' !! ptr = fixed_part <$> objects p !! ptr.
Proof.
  induction ops as [|op rest IH]; intros p p' log Hrun ptr; simpl in Hrun.
  - by injection Hrun as <- <-.
  - destruct (call (perform op) p) as [[[[] p1] events]|] eqn:Hop; [|done].
    destruct (run rest p1) as [[p2 events']|] eqn:Hrest; [|done].
    injection Hrun as <- <-.
    by rewrite (IH _ _ _ Hrest), (perform_fixed _ _ _ _ Hop).
Qed.

Lemma fixed_part_backbuffers chain chain' :
  fixed_part chain' = fixed_part chain →
  bb_valid <$> backbuffers_ chain' = bb_valid <$> backbuffers_ chain.
Proof.
  intros [= _ _ _ _ Hbbs _ _].
  apply (f_equal (fmap bb_valid)) in Hbbs.
  by rewrite <-!list_fmap_compose in Hbbs.
Qed.

Lemma fixed_part_images chain chain' :
  fixed_part chain' = fixed_part chain →
  image_handle <$> images_ chain' = image_handle <$> images_ chain
  ∧ image_valid <$> images_ chain' = image_valid <$> images_ chain.
Proof.
  intros [= _ _ _ _ _ Himages _].
  split.
  - apply (f_equal (fmap image_handle)) in Himages.
    by rewrite <-!list_fmap_compose in Himages.
  - apply (f_equal (fmap image_valid)) in Himages.
    by rewrite <-!list_fmap_compose in Himages.
Qed.

Lemma Forall_fmap_eq {A B} (f : A → B) (P : B → Prop) (l l' : list A) :
  f <$> l' = f <$> l → Forall (λ x, P (f x)) l → Forall (λ x, P (f x)) l'.
Proof.
  intros Heq Hall. apply (Forall_fmap f P). rewrite Heq.
  by apply (Forall_fmap f P).
Qed.

(** X7: no sequence of [AcquireSurface], [Submit], [FlushCommands],
    [AddToPresent] and [PresentAll] calls creates or destroys a chain, and in
    a chain it changes nothing but the two cursors, the pipeline stage, the
    batched flags of the backbuffers and the access mask and layout the
    images track: validity, capabilities (hence [GetSize]), surface format,
    native handle, the surfaces, and the handles and validity of every
    backbuffer and image are what the constructor left. *)
Theorem calls_change_only_cursors_stage_flags_and_tracking (ops : list Operation)
    (p p' : Process) (log : list Event) (ptr : pointer) :
  run ops p = Some (p', log) →
  (objects p !! ptr = None → objects p' !! ptr = None)
  ∧ ∀ chain, objects p !! ptr = Some chain →
      ∃ chain', objects p' !! ptr = Some chain'
        ∧ IsValid chain' = IsValid chain
        ∧ GetSize chain' = GetSize chain
        ∧ capabilities_ chain' = capabilities_ chain
        ∧ surface_format_ chain' = surface_format_ chain
        ∧ swapchain_ chain' = swapchain_ chain
        ∧ surfaces_ chain' = surfaces_ chain
        ∧ UnsetMultiThreading <$> backbuffers_ chain'
          = UnsetMultiThreading <$> backbuffers_ chain
        ∧ image_handle <$> images_ chain' = image_handle <$> images_ chain
        ∧ image_valid <$> images_ chain' = image_valid <$> images_ chain.
Proof.
  intros Hrun. pose proof (run_fixed _ _ _ _ Hrun ptr) as Hfixed.
  split.
  - intros Hnone. rewrite Hnone in Hfixed. by destruct (objects p' !! ptr).
  - intros chain Hchain. rewrite Hchain in Hfixed.
    destruct (objects p' !! ptr) as [chain'|]; [|done].
    simpl in Hfixed. assert (fixed_part chain' = fixed_part chain) as Heq
      by congruence.
    clear Hfixed. exists chain'. split; [done|].
    destruct (fixed_part_images _ _ Heq) as [Hhandles Hvalid].
    injection Heq as Hv Hcaps Hformat Hhandle Hbbs _ Hsurfaces.
    unfold IsValid, GetSize. rewrite Hcaps. done.
Qed.

Lemma calls_change_only_cursors_stage_flags_and_tracking_witness :
  ∃ p' log,
    run [OpAcquireSurface 1%positive platform_ok;
         OpAddToPresent 1%positive 4%positive;
         OpPresentAll 99 platform_present_fails;
         OpSubmit 2%positive platform_ok] sample_process = Some (p', log)
    ∧ (objects sample_process !! 1%positive = None → objects p' !! 1%positive = None)
    ∧ ∀ chain, objects sample_process !! 1%positive = Some chain →
        ∃ chain', objects p' !! 1%positive = Some chain'
          ∧ IsValid chain' = IsValid chain
          ∧ GetSize chain' = GetSize chain
          ∧ capabilities_ chain' = capabilities_ chain
          ∧ surface_format_ chain' = surface_format_ chain
          ∧ swapchain_ chain' = swapchain_ chain
          ∧ surfaces_ chain' = surfaces_ chain
          ∧ UnsetMultiThreading <$> backbuffers_ chain'
            = UnsetMultiThreading <$> backbuffers_ chain
          ∧ image_handle <$> images_ chain' = image_handle <$> images_ chain
          ∧ image_valid <$> images_ chain' = image_valid <$> images_ chain.
Proof.
  eexists _, _. split; [vm_compute; reflexivity|].
  eapply (calls_change_only_cursors_stage_flags_and_tracking
            [OpAcquireSurface 1%positive platform_ok;
             OpAddToPresent 1%positive 4%positive;
             OpPresentAll 99 platform_present_fails;
             OpSubmit 2%positive platform_ok] sample_process).
  vm_compute; reflexivity.
Defined.

(** ** [Submit] after [AcquireSurface] *)

Lemma AcquireSurface_acquired vk this surface this' log :
  chain_invariant this → IsValid this = true →
  call (AcquireSurface vk) this = Some ((Success, surface), this', log) →
  acquired vk this this' surface.
Proof.
  intros Hinv Hvalid.
  assert (chain_ok this) as Hok by (by intros _).
  pose (P := λ (r : AcquireResult) this' (_ : list Event),
          r.1 = Success → acquired vk this this' r.2).
  intros Hcall. apply (call_wp True _ P) in Hcall; [by apply Hcall|].
  subst P. unfold AcquireSurface, GetNextBackbuffer, InsertImageMemoryBarrier.
  wp_run; try done.
  all: intros _; with_invariant Hok; leaf vk.
  all: split; simpl; rewrite ?length_alter; try done; try lia.
  all: try (split; simpl; rewrite ?length_alter; try done; lia).
  all: fixed.
Qed.

(** X8: the [Submit] that follows a successful [AcquireSurface] is defined
    whatever the platform now answers, and it works on what that acquire
    chose: it flushes the surface the acquire returned, records into the
    render command buffer of the backbuffer the acquire rotated to, its
    barrier takes the acquired image from the colour-attachment-output stage
    the acquire left to bottom-of-pipe, and when it returns true it has
    presented the acquired image index on this chain's handle, waiting on
    that backbuffer's render semaphore. *)
Theorem Submit_presents_the_acquired_image (vk1 vk2 : Platform)
    (this this1 : VulkanSwapchain) (surface : option SkSurface)
    (log1 : list Event) :
  chain_invariant this → IsValid this = true →
  call (AcquireSurface vk1) this = Some ((Success, surface), this1, log1) →
  let index := to_uint32 (AcquireNextImageKHR vk1).2 in
  ∃ sk_surface bb image,
    surface = Some sk_surface
    ∧ backbuffers_ this !! Z.to_nat (next_slot this) = Some bb
    ∧ images_ this !! Z.to_nat index = Some image
    ∧ ∃ result this2 log2,
        call (Submit vk2) this1 = Some (result, this2, log2)
        ∧ (∃ rest, log2 = EvFlush sk_surface
                          :: EvBegin (render_command_buffer bb) (Begin vk2) :: rest)
        ∧ (Begin vk2 = true →
           EvInsertImageMemoryBarrier (image_handle image) (render_command_buffer bb)
             VK_PIPELINE_STAGE_COLOR_ATTACHMENT_OUTPUT_BIT
             VK_PIPELINE_STAGE_BOTTOM_OF_PIPE_BIT VK_ACCESS_MEMORY_READ_BIT
             VK_IMAGE_LAYOUT_PRESENT_SRC_KHR (InsertPipelineBarrier vk2) ∈ log2)
        ∧ (result = true →
           EvQueuePresentKHR [render_semaphore bb] [swapchain_ this] [index]
             VK_SUCCESS ∈ log2
           ∧ current_pipeline_stage_ this2 = VK_PIPELINE_STAGE_BOTTOM_OF_PIPE_BIT).
Proof.
  intros Hinv Hvalid Hcall index.
  destruct (AcquireSurface_acquired _ _ _ _ _ Hinv Hvalid Hcall)
    as [Hv1 Hinv1 Hii Hbi Hstage Hchain Hsurfaces Hsurface [sk ->] Hfixed].
  pose proof (fixed_part_backbuffers _ _ Hfixed) as Hbbs.
  destruct (fixed_part_images _ _ Hfixed) as [Hhandles _].
  assert (UnsetMultiThreading <$> backbuffers_ this1
          = UnsetMultiThreading <$> backbuffers_ this) as Hunset
    by (by injection Hfixed).
  assert (length (backbuffers_ this1) = length (backbuffers_ this)) as Hlenb
    by (apply (f_equal length) in Hbbs; by rewrite !length_fmap in Hbbs).
  assert (length (images_ this1) = length (images_ this)) as Hleni
    by (apply (f_equal length) in Hhandles; by rewrite !length_fmap in Hhandles).
  destruct (lookup_lt_is_Some_2 (backbuffers_ this) (Z.to_nat (next_slot this)))
    as [bb Hbb].
  { destruct Hinv1. rewrite Hbi in *. lia. }
  destruct (lookup_lt_is_Some_2 (images_ this) (Z.to_nat index)) as [image Himage].
  { destruct Hinv1. subst index. rewrite Hii in *. lia. }
  destruct (lookup_lt_is_Some_2 (backbuffers_ this1) (Z.to_nat (next_slot this)))
    as [bb1 Hbb1]; [apply lookup_lt_Some in Hbb; lia|].
  destruct (lookup_lt_is_Some_2 (images_ this1) (Z.to_nat index)) as [image1 Himage1].
  { apply lookup_lt_Some in Himage. lia. }
  assert (UnsetMultiThreading bb1 = UnsetMultiThreading bb) as Hsame.
  { apply (f_equal (.!! Z.to_nat (next_slot this))) in Hunset.
    rewrite !list_lookup_fmap, Hbb, Hbb1 in Hunset. by apply (inj Some) in Hunset. }
  assert (image_handle image1 = image_handle image) as Hhandle.
  { apply (f_equal (.!! Z.to_nat index)) in Hhandles.
    rewrite !list_lookup_fmap, Himage, Himage1 in Hhandles.
    by apply (inj Some) in Hhandles. }
  injection Hsame as Hbv Hus Hrs Huf Hrf Hucb Hrcb.
  rewrite <-Hsurfaces, <-Hii in Hsurface. subst index.
  rewrite <-Hii in Himage1. rewrite <-Hbi in Hbb1.
  exists sk, bb, image. split; [done|]. split; [done|]. split; [done|].
  rewrite <-Hii, <-Hchain, <-Hrs, <-Hrcb, <-Hhandle. clear Himage Hbb Hcall.
  apply wp_call. unfold Submit, InsertImageMemoryBarrier. wp_run.
  all: path_facts; simplify_eq/=; try congruence.
  all: rewrite ?Hstage.
  all: split; [by eexists|].
  all: split; [intros ?; try congruence; by repeat constructor|intros ?; try done].
  split; [|done].
  rewrite to_uint32_small by (destruct Hinv1; unfold UINT32_MODULUS in *; lia).
  use_answers. by repeat constructor.
Qed.

Lemma Submit_presents_the_acquired_image_witness :
  ∃ this1 log1,
    call (AcquireSurface platform_ok) sample_chain
    = Some ((Success, Some 82), this1, log1)
    ∧ ∃ sk_surface bb image,
        Some 82 = Some sk_surface
        ∧ backbuffers_ sample_chain !! Z.to_nat (next_slot sample_chain) = Some bb
        ∧ images_ sample_chain
            !! Z.to_nat (to_uint32 (AcquireNextImageKHR platform_ok).2)
          = Some image
        ∧ ∃ result this2 log2,
            call (Submit platform_present_fails) this1 = Some (result, this2, log2)
            ∧ (∃ rest, log2 = EvFlush sk_surface
                              :: EvBegin (render_command_buffer bb)
                                   (Begin platform_present_fails) :: rest)
            ∧ (Begin platform_present_fails = true →
               EvInsertImageMemoryBarrier (image_handle image)
                 (render_command_buffer bb)
                 VK_PIPELINE_STAGE_COLOR_ATTACHMENT_OUTPUT_BIT
                 VK_PIPELINE_STAGE_BOTTOM_OF_PIPE_BIT VK_ACCESS_MEMORY_READ_BIT
                 VK_IMAGE_LAYOUT_PRESENT_SRC_KHR
                 (InsertPipelineBarrier platform_present_fails) ∈ log2)
            ∧ (result = true →
               EvQueuePresentKHR [render_semaphore bb] [swapchain_ sample_chain]
                 [to_uint32 (AcquireNextImageKHR platform_ok).2] VK_SUCCESS ∈ log2
               ∧ current_pipeline_stage_ this2
                 = VK_PIPELINE_STAGE_BOTTOM_OF_PIPE_BIT).
Proof.
  eexists _, _. split; [vm_compute; reflexivity|].
  eapply (Submit_presents_the_acquired_image platform_ok platform_present_fails
            sample_chain _ (Some 82) _ sample_chain_invariant eq_refl).
  vm_compute; reflexivity.
Defined.

(** ** The registry, entry by entry *)

(** X9: [AddToPresent] touches no chain and makes three steps, all under the
    mutex; afterwards the calling thread's entry is the chain it was called
    on and every other thread's entry is what it was.  A thread has one entry
    only: when it registers again, the chain it registered before is no
    longer in the registry. *)
Theorem AddToPresent_keeps_one_chain_per_thread (this later : pointer)
    (thread : thread_id) (p : Process) :
  ∃ p',
    call (AddToPresent this thread) p
    = Some (tt, p', [EvLock; EvRegistry RegInsert; EvUnlock])
    ∧ objects p' = objects p
    ∧ to_be_present_ p' !! thread = Some this
    ∧ (∀ other, other ≠ thread →
         to_be_present_ p' !! other = to_be_present_ p !! other)
    ∧ ∃ p'',
        call (AddToPresent later thread) p'
        = Some (tt, p'', [EvLock; EvRegistry RegInsert; EvUnlock])
        ∧ to_be_present_ p'' = <[thread := later]> (to_be_present_ p).
Proof.
  eexists. split; [reflexivity|]. simpl.
  split; [done|]. split; [apply lookup_insert_eq|].
  split; [by intros other Hne; rewrite lookup_insert_ne|].
  eexists. split; [reflexivity|]. simpl. apply insert_insert_eq.
Qed.

(** X10: when every registered pointer leads to a valid chain, [PresentAll]
    is defined and, whether or not its submit and its present succeed, it
    leaves every chain that no thread has registered exactly as it was, and
    in a registered chain it changes one thing: the current backbuffer is
    flagged as batched.  On an empty registry it changes nothing and makes no
    call. *)
Theorem PresentAll_marks_registered_chains_only (shared_fence : handle)
    (vk : Platform) (p : Process) :
  registered_ok p →
  ∃ p' log,
    call (PresentAll shared_fence vk) p = Some (tt, p', log)
    ∧ (to_be_present_ p = ∅ → p' = p ∧ log = [EvRegistry RegEmpty])
    ∧ (∀ ptr, (∀ thread, to_be_present_ p !! thread ≠ Some ptr) →
         objects p' !! ptr = objects p !! ptr)
    ∧ (∀ thread ptr, to_be_present_ p !! thread = Some ptr →
         ∃ chain, objects p !! ptr = Some chain
           ∧ objects p' !! ptr = Some (batched chain)
           ∧ multi_threading <$> current_backbuffer (batched chain) = Some true
           ∧ fixed_part (batched chain) = fixed_part chain
           ∧ cursors (batched chain) = cursors chain
           ∧ images_ (batched chain) = images_ chain
           ∧ current_pipeline_stage_ (batched chain) = current_pipeline_stage_ chain).
Proof.
  intros Hreg.
  destruct (decide (to_be_present_ p = ∅)) as [Hempty|Hne].
  - exists p, [EvRegistry RegEmpty]. split.
    + unfold call, PresentAll. unfold mbind, Stmt_bind, bind, get, emit. simpl.
      by rewrite bool_decide_eq_true_2.
    + split; [done|]. split; [done|].
      intros thread ptr Hthread. by rewrite Hempty, lookup_empty in Hthread.
  - destruct (PresentAll_run shared_fence vk p Hne Hreg) as (p' & log & Hcall & _ & Hobj).
    exists p', log. split; [done|]. split; [done|].
    assert (∀ ptr, ptr ∈ (walk vk p).*2
                   ↔ ∃ thread, to_be_present_ p !! thread = Some ptr) as Hin.
    { intros ptr. rewrite list_elem_of_fmap. split.
      - intros ([thread q] & -> & He%elem_of_walk). by exists thread.
      - intros [thread He]. exists (thread, ptr). split; [done|].
        by apply elem_of_walk. }
    split.
    + intros ptr Hout. rewrite Hobj, lookup_mark_all.
      rewrite decide_False; [done|]. intros [thread He]%Hin. by apply (Hout thread).
    + intros thread ptr He.
      destruct (Hreg _ _ He) as (chain & Hchain & _ & Hinv).
      exists chain. split; [done|]. split.
      { rewrite Hobj, lookup_mark_all, decide_True by (apply Hin; by exists thread).
        by rewrite Hchain. }
      split; [|split; [apply batched_fixed|done]].
      rewrite current_backbuffer_batched. unfold current_backbuffer.
      destruct (lookup_lt_is_Some_2 (backbuffers_ chain)
                  (Z.to_nat (current_backbuffer_index_ chain))) as [bb ->];
        [destruct Hinv; lia|done].
Qed.

Lemma PresentAll_marks_registered_chains_only_witness :
  ∃ p' log,
    call (PresentAll 99 platform_submit_fails) sample_process = Some (tt, p', log)
    ∧ (to_be_present_ sample_process = ∅
       → p' = sample_process ∧ log = [EvRegistry RegEmpty])
    ∧ (∀ ptr, (∀ thread, to_be_present_ sample_process !! thread ≠ Some ptr) →
         objects p' !! ptr = objects sample_process !! ptr)
    ∧ (∀ thread ptr, to_be_present_ sample_process !! thread = Some ptr →
         ∃ chain, objects sample_process !! ptr = Some chain
           ∧ objects p' !! ptr = Some (batched chain)
           ∧ multi_threading <$> current_backbuffer (batched chain) = Some true
           ∧ fixed_part (batched chain) = fixed_part chain
           ∧ cursors (batched chain) = cursors chain
           ∧ images_ (batched chain) = images_ chain
           ∧ current_pipeline_stage_ (batched chain) = current_pipeline_stage_ chain).
Proof.
  exact (PresentAll_marks_registered_chains_only 99 platform_submit_fails
           sample_process sample_process_registered).
Defined.




(** ** What a valid object says about its construction *)

(** The loop runs to its end only when every backbuffer, image and surface
    it made was usable, and then it has appended exactly those. *)
Lemma populate_filled (U : Prop) c color_type surface_size : ∀ images n this log
    (Q : unit → VulkanSwapchain → list Event → Prop)
    (E : bool → VulkanSwapchain → list Event → Prop),
  (Forall (λ i, bb_valid (new_VulkanBackbuffer c i) = true) (seq n (length images)) →
   Forall (λ image, VulkanImage_IsValid c image = true
                    ∧ is_Some (CreateSkiaSurface (skia_context c) image
                                 surface_size color_type)) images →
   Q tt (populated c color_type surface_size n images this) log) →
  (∀ this', valid_ this' = valid_ this → E false this' log) →
  wp_gen U (populate c color_type surface_size n images) Q E this log.
Proof.
  induction images as [|image rest IH]; intros n this log Q E HQ HE.
  - apply wp_mret. unfold populated in HQ. simpl in HQ. rewrite !app_nil_r in HQ.
    destruct this. by apply HQ.
  - cbn [populate]. wp_run; try by apply HE.
    apply IH.
    + intros Hbbs Himages. path_facts.
      assert (Q tt (populated c color_type surface_size n (image :: rest) this) log)
        as Hgoal.
      { apply HQ.
        - by constructor.
        - constructor; [|done]. split; [done|]. by rewrite Hopt. }
      match goal with
      | |- Q tt ?a log =>
          match type of Hgoal with
          | Q tt ?b log => replace a with b; [exact Hgoal|]
          end
      end.
      unfold populated, set_surfaces, set_images, set_backbuffers. simpl.
      by rewrite <-!app_assoc, Hopt.
    + intros this' Hv. by apply HE.
Qed.

Lemma GetImages_nonempty c :
  GetImages c ≠ [] →
  (GetSwapchainImagesKHR_count c).1 = VK_SUCCESS
  ∧ (GetSwapchainImagesKHR_images c).1 = VK_SUCCESS
  ∧ Z.of_nat (length (GetImages c)) = to_uint32 (GetSwapchainImagesKHR_count c).2.
Proof.
  unfold GetImages. repeat case_match; try done. intros _. path_facts.
  rewrite length_fmap, length_seq.
  pose proof (to_uint32_range (GetSwapchainImagesKHR_count c).2). split; [done|].
  split; [done|]. lia.
Qed.

Lemma construct_valid_constructed (c : Construction) (this : VulkanSwapchain) :
  construct c = Some this → IsValid this = true → constructed c this.
Proof.
  unfold construct.
  destruct (call _ _) as [[[[] this'] log]|] eqn:Hcall; [|done].
  intros [= ->]. revert Hcall.
  apply (call_wp True _ (λ _ this _, IsValid this = true → constructed c this)).
  unfold VulkanSwapchain_ctor, CreateSwapchainImages. wp_run; try done.
  apply populate_filled.
  - intros Hbbs Himages. wp_run; [done|]. intros _.
    assert (GetImages c ≠ []) as Hne.
    { path_facts. intros Hnil. by rewrite Hnil in *. }
    destruct (GetImages_nonempty c Hne) as (Hcount & Himgs & Hlen).
    apply orb_false_iff in Hif as [[Hdev Hsurf]%orb_false_iff Hctx].
    path_facts. unfold populated. simpl.
    split; simpl; rewrite ?length_fmap, ?length_seq; try done.
    + repeat split; try done. destruct (GetImages c); simpl in *; [done|lia].
    + apply Forall_fmap. by eapply Forall_impl.
    + apply Forall_fmap. eapply Forall_impl; [exact Himages|]. by intros ? [? ?].
    + apply Forall_fmap. eapply Forall_impl; [exact Himages|]. by intros ? [? ?].
  - intros this' Hv. wp_run; [|done]. unfold IsValid. simpl in *. congruence.
Qed.



(** ** A constructed chain in use *)

(** With every backbuffer usable, a valid chain always rotates. *)
Lemma AcquireSurface_step (vk : Platform) (this : VulkanSwapchain) :
  chain_invariant this → IsValid this = true →
  Forall (λ bb, bb_valid bb = true) (backbuffers_ this) →
  ∃ result this' log,
    call (AcquireSurface vk) this = Some (result, this', log)
    ∧ current_backbuffer_index_ this' = next_slot this
    ∧ log ≠ [].
Proof.
  intros Hinv Hvalid Hbbs.
  assert (chain_ok this) as Hok by (by intros _).
  apply wp_call.
  unfold AcquireSurface, GetNextBackbuffer, InsertImageMemoryBarrier. wp_run.
  all: try match goal with
           | H : backbuffers_ _ !! _ = Some ?bb, Hf : negb (bb_valid ?bb) = true |- _ =>
               apply (Forall_lookup_1 _ _ _ _ Hbbs) in H; rewrite H in Hf; done
           end.
  all: with_invariant Hok; leaf vk.
  all: split; [done|]; by intros ?%app_eq_nil.
Qed.

(** X13: a chain that came valid out of the constructor never runs out of
    backbuffers.  After any sequence of public calls on the process it is
    still valid, still has as many backbuffers as the platform reported
    images, all of them valid, and all its images valid; so the next
    [AcquireSurface] on it, whatever the platform answers, gets past
    [GetNextBackbuffer], rotates the cursor to (current + 1) mod N and makes
    at least one call to the device. *)
Theorem constructed_chain_never_runs_out_of_backbuffers (c : Construction)
    (made : VulkanSwapchain) (ptr : pointer) (ops : list Operation)
    (p p' : Process) (log : list Event) :
  construct c = Some made → IsValid made = true →
  objects p !! ptr = Some made →
  run ops p = Some (p', log) →
  ∃ this,
    objects p' !! ptr = Some this
    ∧ IsValid this = true
    ∧ Forall (λ bb, bb_valid bb = true) (backbuffers_ this)
    ∧ Forall (λ image, image_valid image = true) (images_ this)
    ∧ Z.of_nat (length (backbuffers_ this))
      = to_uint32 (GetSwapchainImagesKHR_count c).2
    ∧ ∀ vk, ∃ result this' events,
        call (AcquireSurface vk) this = Some (result, this', events)
        ∧ current_backbuffer_index_ this' = next_slot this
        ∧ events ≠ [].
Proof.
  intros Hmade Hvalid Hptr Hrun.
  pose proof (construct_valid_constructed c made Hmade Hvalid) as Hc.
  pose proof (construct_valid_invariant c made Hmade Hvalid) as Hinv.
  pose proof (run_fixed _ _ _ _ Hrun ptr) as Hfixed.
  pose proof (run_evolves _ _ _ _ Hrun ptr) as Hev.
  rewrite Hptr in Hfixed, Hev.
  inversion Hev as [? this [Hv Hstep] Ha Hb|]; subst. symmetry in Hb.
  rewrite Hb in Hfixed. simpl in Hfixed.
  assert (fixed_part this = fixed_part made) as Heq by congruence. clear Hfixed.
  assert (IsValid this = true) as Hvalid' by (unfold IsValid in *; congruence).
  assert (chain_invariant this) as Hinv' by (apply Hstep; [by intros _|done]).
  pose proof (fixed_part_backbuffers _ _ Heq) as Hbbs.
  destruct (fixed_part_images _ _ Heq) as [_ Himages].
  assert (Forall (λ bb, bb_valid bb = true) (backbuffers_ this)) as Hallbb.
  { eapply (Forall_fmap_eq bb_valid (λ b, b = true)); [exact Hbbs|].
    apply Hc. }
  exists this. split; [done|]. split; [done|]. split; [done|]. split.
  { eapply (Forall_fmap_eq image_valid (λ b, b = true)); [exact Himages|].
    apply Hc. }
  split.
  { apply (f_equal length) in Hbbs. rewrite !length_fmap in Hbbs.
    destruct Hc as [_ _ _ _ _ _ (_ & _ & _ & Hcount) _ _ _ _ _ _ _ _].
    destruct Hinv. lia. }
  intros vk. by apply AcquireSurface_step.
Qed.

Lemma constructed_chain_never_runs_out_of_backbuffers_witness :
  ∃ p' log,
    construct construction_with_first_format = Some sample_made
    ∧ IsValid sample_made = true
    ∧ run [OpAcquireSurface 1%positive platform_ok; OpSubmit 1%positive platform_ok;
           OpAcquireSurface 1%positive platform_barrier_fails]
        sample_made_process
      = Some (p', log)
    ∧ ∃ this,
        objects p' !! 1%positive = Some this
        ∧ IsValid this = true
        ∧ Forall (λ bb, bb_valid bb = true) (backbuffers_ this)
        ∧ Forall (λ image, image_valid image = true) (images_ this)
        ∧ Z.of_nat (length (backbuffers_ this))
          = to_uint32 (GetSwapchainImagesKHR_count construction_with_first_format).2
        ∧ ∀ vk, ∃ result this' events,
            call (AcquireSurface vk) this = Some (result, this', events)
            ∧ current_backbuffer_index_ this' = next_slot this
            ∧ events ≠ [].
Proof.
  eexists _, _. split; [reflexivity|]. split; [reflexivity|].
  split; [vm_compute; reflexivity|].
  eapply (constructed_chain_never_runs_out_of_backbuffers
            construction_with_first_format sample_made 1%positive
            [OpAcquireSurface 1%positive platform_ok; OpSubmit 1%positive platform_ok;
             OpAcquireSurface 1%positive platform_barrier_fails]
            sample_made_process);
    [reflexivity | reflexivity | reflexivity | vm_compute; reflexivity].
Defined.
